(** * persistqueue.sqlqueue: the SQL-backed persistent queues

    A shallow embedding of [persistqueue/sqlqueue.py]: the classes
    [SQLiteQueue] (alias [FIFOSQLiteQueue]), [FILOSQLiteQueue], [UniqueQ]
    and [MySQLQueue], over a model of the table they keep their records in.

    A queue object is a [handle] (the attributes [auto_commit], [cursor],
    [total], [put_event]) working on a [table] that outlives it and that
    other handles share.  A method is a function [world -> outcome * world];
    an exception leaves the mutations made before it in place, as in Python.
    The action lock is held around every [_pop], so a method runs as one
    step; what other threads and processes do while [get] sleeps is an
    explicit input of [get]. *)

From Stdlib Require Import ZArith QArith List Bool Lia Lqa Sorted.
From Stdlib Require Import Strings.Byte.
Import ListNotations.
Open Scope Z_scope.

Set Implicit Arguments.

(** ** Python values and exceptions *)

Definition bytes := list byte.

Definition bytes_eqb (a b : bytes) : bool :=
  if list_eq_dec byte_eq_dec a b then true else false.

(** The exceptions the module raises or lets through. *)
Inductive exn : Type :=
  | Empty               (* persistqueue.exceptions.Empty *)
  | ValueError
  | UnboundLocalError
  | IndexError
  | TypeError
  | IntegrityError.     (* sqlite3.IntegrityError *)

(** How a call ends.  [Pending] is not a Python outcome: it marks a blocking
    [get] that is still asleep when the modelled schedule ends. *)
Inductive outcome (A : Type) : Type :=
  | Return (a : A)
  | Raise (e : exn)
  | Pending.

Arguments Raise {A} e.
Arguments Pending {A}.

(** The pluggable serializer, [self._serializer.dumps] / [.loads], and the
    values it handles.  [dumps_sorted] is [dumps(item, sort_keys=True)],
    which [UniqueQ.put] calls.  [is_none x] is Python's [x is None] on such
    a value: [_pop] hands [get] the loaded value itself, and [get] takes
    [None] for "no record". *)
Class Serializer (Item : Type) : Type := {
  dumps : Item -> bytes;
  dumps_sorted : Item -> bytes;
  loads : bytes -> Item;
  is_none : Item -> bool
}.

(** ** The table

    [_SQL_CREATE]: [_id INTEGER PRIMARY KEY AUTOINCREMENT, data BLOB,
    timestamp FLOAT], and for [UniqueQ] also [UNIQUE (data)].  Clock
    readings and timeouts, floats in Python, are the rationals those floats
    denote. *)

Record record : Type := {
  row_id : Z;           (* _id *)
  row_data : bytes;     (* data *)
  row_timestamp : Q     (* timestamp *)
}.

Record table : Type := {
  unique_data : bool;   (* the table was created with UNIQUE (data) *)
  seq : Z;              (* AUTOINCREMENT: the largest _id ever handed out *)
  rows : list record
}.

Definition ids (t : table) : list Z := map row_id (rows t).

(** A value in a fetched row, and a fetched row: the tuple that
    [fetchone()] returns. *)
Inductive cell : Type :=
  | Null
  | Int (z : Z)
  | Blob (b : bytes)
  | Float (q : Q).

Definition fetched := list cell.

Inductive column : Type := key_column | data_column | timestamp_column.

Definition cell_of (r : record) (c : column) : cell :=
  match c with
  | key_column => Int (row_id r)
  | data_column => Blob (row_data r)
  | timestamp_column => Float (row_timestamp r)
  end.

Definition project (cols : list column) (r : record) : fetched :=
  map (cell_of r) cols.

(** The comparison operators the module formats into its SQL:
    ['='], ['>'] and ['<=']. *)
Inductive cmp : Type := op_eq | op_gt | op_le.

Definition cmp_holds (o : cmp) (a b : Z) : bool :=
  match o with
  | op_eq => a =? b
  | op_gt => a >? b
  | op_le => a <=? b
  end.

(** [{column} {op} ?] with an integer parameter.  SQLite orders NULL below
    numbers and numbers below blobs; a comparison with NULL selects
    nothing. *)
Definition where_holds (c : column) (o : cmp) (param : Z) (r : record) : bool :=
  match cell_of r c with
  | Null => false
  | Int z => cmp_holds o z param
  | Float q =>
      match o with
      | op_eq => Qeq_bool q (inject_Z param)
      | op_gt => negb (Qle_bool q (inject_Z param))
      | op_le => Qle_bool q (inject_Z param)
      end
  | Blob _ => match o with op_gt => true | _ => false end
  end.

Inductive order : Type := ASC | DESC.

(** [ORDER BY _id <order> LIMIT 1]: the row that comes first. *)
Definition comes_first (o : order) (r r' : record) : bool :=
  match o with
  | ASC => row_id r <=? row_id r'
  | DESC => row_id r' <=? row_id r
  end.

Fixpoint limit_1 (o : order) (l : list record) : option record :=
  match l with
  | [] => None
  | r :: l' =>
      match limit_1 o l' with
      | None => Some r
      | Some r' => if comes_first o r r' then Some r else Some r'
      end
  end.

(** A [SELECT <columns> FROM <table> ORDER BY _id <order> LIMIT 1]
    statement, as the class constants spell it. *)
Record select_stmt : Type := {
  sel_columns : list column;
  sel_order : order
}.

Definition run_select (s : select_stmt) (cond : record -> bool) (t : table)
  : option fetched :=
  option_map (project (sel_columns s))
             (limit_1 (sel_order s) (filter cond (rows t))).

(** ** The classes and their SQL constants *)

Inductive queue_class : Type :=
  | FIFOSQLiteQueue     (* = SQLiteQueue *)
  | FILOSQLiteQueue
  | UniqueQ
  | MySQLQueue.

(** [_SQL_CREATE]: only [UniqueQ] adds [UNIQUE (data)]. *)
Definition _SQL_CREATE (k : queue_class) : table :=
  {| unique_data := match k with UniqueQ => true | _ => false end;
     seq := 0;
     rows := [] |}.

(** [_SQL_SELECT]: [FILOSQLiteQueue] overrides it, and its text names two
    columns only. *)
Definition _SQL_SELECT (k : queue_class) : select_stmt :=
  match k with
  | FILOSQLiteQueue =>
      {| sel_columns := [key_column; data_column]; sel_order := DESC |}
  | _ =>
      {| sel_columns := [key_column; data_column; timestamp_column];
         sel_order := ASC |}
  end.

(** [_SQL_SELECT_ID] and [_SQL_SELECT_WHERE] are the same in every class. *)
Definition _SQL_SELECT_ID (k : queue_class) : select_stmt :=
  {| sel_columns := [key_column; data_column; timestamp_column];
     sel_order := ASC |}.

Definition _SQL_SELECT_WHERE (k : queue_class) : select_stmt :=
  {| sel_columns := [key_column; data_column; timestamp_column];
     sel_order := ASC |}.

Definition _KEY_COLUMN (k : queue_class) : column := key_column.

(** ** Handles and the method monad *)

(** The attributes of a queue object that the methods read and write.
    The three SQLite classes get all of them from their constructor and
    [_init].  [MySQLQueue.__init__] creates [put_event] only: no code of the
    module assigns [auto_commit], [cursor] or [total] on a [MySQLQueue],
    although its [task_done] and [_init] read [auto_commit]; a world gives
    them a value all the same. *)
Record handle : Type := {
  klass : queue_class;
  auto_commit : bool;
  cursor : Z;
  total : Z;
  put_event : bool      (* threading.Event: set by put, cleared by get *)
}.

Record world : Type := {
  self : handle;
  db : table
}.

Definition M (A : Type) : Type := world -> outcome A * world.

Definition ret {A} (a : A) : M A := fun w => (Return a, w).

Definition raise {A} (e : exn) : M A := fun w => (Raise e, w).

Definition bind {A B} (c : M A) (k : A -> M B) : M B :=
  fun w =>
    match c w with
    | (Return a, w') => k a w'
    | (Raise e, w') => (Raise e, w')
    | (Pending, w') => (Pending, w')
    end.

Declare Scope py_scope.
Delimit Scope py_scope with py.
Notation "x <- c ;; k" := (bind c (fun x => k))
  (at level 61, c at next level, right associativity) : py_scope.
Notation "c ;; k" := (bind c (fun _ => k))
  (at level 61, right associativity) : py_scope.
Open Scope py_scope.

(** Lift a result computed outside the monad (an index out of range, a
    failed insert). *)
Definition lift {A} (o : outcome A) : M A := fun w => (o, w).

Definition attr {A} (f : handle -> A) : M A := fun w => (Return (f (self w)), w).

Definition with_self (f : handle -> handle) : M unit :=
  fun w => (Return tt, {| self := f (self w); db := db w |}).

Definition set_cursor (c : Z) : M unit :=
  with_self (fun h => {| klass := klass h; auto_commit := auto_commit h;
                         cursor := c; total := total h;
                         put_event := put_event h |}).

Definition set_total (n : Z) : M unit :=
  with_self (fun h => {| klass := klass h; auto_commit := auto_commit h;
                         cursor := cursor h; total := n;
                         put_event := put_event h |}).

Definition set_put_event (b : bool) : M unit :=
  with_self (fun h => {| klass := klass h; auto_commit := auto_commit h;
                         cursor := cursor h; total := total h;
                         put_event := b |}).

(** [row[n]] on a fetched tuple. *)
Definition item_at (row : fetched) (n : nat) : outcome cell :=
  match nth_error row n with
  | Some c => Return c
  | None => Raise IndexError
  end.

(** [c is None] on a fetched value.  ([if row:] on what [fetchone()] gave
    is the pattern [Some (_ :: _)]: neither [None] nor [()].) *)
Definition is_None (c : cell) : bool :=
  match c with
  | Null => true
  | _ => false
  end.

(** The key column is INTEGER PRIMARY KEY, so a key cell holds an integer;
    arithmetic or a key comparison on anything else is a type error. *)
Definition as_int (c : cell) : outcome Z :=
  match c with
  | Int z => Return z
  | _ => Raise TypeError
  end.

Definition as_blob (c : cell) : outcome bytes :=
  match c with
  | Blob b => Return b
  | _ => Raise TypeError
  end.

(** ** The storage access layer ([persistqueue.sqlbase])

    The module is not in the source tree; its methods are modelled from
    section 4.1 of the specification, with the SQL constants of the
    classes.  The model is of a store that answers: a connectivity fault
    (the specification's [StoreUnavailable]), which every method of the
    queue would let through to its caller, is outside it, and every
    statement below is about calls the store answered.  The one failure
    of the store in the model is the constraint violation of [UNIQUE
    (data)]. *)

Module SQLBase.

(** Modelled from the spec: [sqlbase.SQLBase._insert_into], which is not
    in the source tree.  Section 4.1: [insert(payload, timestamp) -> id],
    failing with a constraint violation when the unique variant's
    constraint is violated; section 3: ids are assigned by the store and
    strictly increase in insertion order. *)
Definition _insert_into (obj : bytes) (timestamp : Q) : M Z :=
  fun w =>
    let t := db w in
    if unique_data t && existsb (bytes_eqb obj) (map row_data (rows t))
    then (Raise IntegrityError, w)
    else
      let i := seq t + 1 in
      (Return i,
       {| self := self w;
          db := {| unique_data := unique_data t;
                   seq := i;
                   rows := rows t ++ [{| row_id := i; row_data := obj;
                                         row_timestamp := timestamp |}] |} |}).

(** Modelled from the spec: [sqlbase.SQLBase._select], which is not in
    the source tree.  Section 4.1: [selectById(id)] when an explicit id
    is given (section 4.4: it bypasses ordering), [selectAfterCursor]
    when an operator and a column come with the parameter, [selectHead]
    otherwise.  The statements are the class constants of the source. *)
Definition _select (args : list Z) (op : option cmp) (col : option column)
                   (rowid : option Z) : M (option fetched) :=
  fun w =>
    let k := klass (self w) in
    (Return
       match rowid with
       | Some i => run_select (_SQL_SELECT_ID k) (fun r => row_id r =? i) (db w)
       | None =>
           match op, col, args with
           | Some o, Some c, param :: _ =>
               run_select (_SQL_SELECT_WHERE k) (where_holds c o param) (db w)
           | _, _, _ => run_select (_SQL_SELECT k) (fun _ => true) (db w)
           end
       end, w).

(** Modelled from the spec: [sqlbase.SQLBase._delete], which is not in
    the source tree.  Section 4.1: [deleteById(id)] and the inclusive
    [deleteUpTo(cursor)]; the statement is [_SQL_DELETE] of the source,
    [DELETE FROM t WHERE _id {op} ?]. *)
Definition _delete (key : Z) (op : cmp) : M unit :=
  fun w =>
    let t := db w in
    (Return tt,
     {| self := self w;
        db := {| unique_data := unique_data t;
                 seq := seq t;
                 rows := filter (fun r => negb (where_holds key_column op key r))
                                (rows t) |} |}).

Definition set_data (key : Z) (obj : bytes) (r : record) : record :=
  if row_id r =? key
  then {| row_id := row_id r; row_data := obj;
          row_timestamp := row_timestamp r |}
  else r.

(** Modelled from the spec: [sqlbase.SQLBase._update], which is not in
    the source tree.  Section 4.1: [update(id, payload)]; the statement is
    [_SQL_UPDATE] of the source, [UPDATE t SET data = ? WHERE _id = ?],
    which [UNIQUE (data)] refuses when another row holds the payload. *)
Definition _update (key : Z) (obj : bytes) : M unit :=
  fun w =>
    let t := db w in
    if unique_data t
       && existsb (fun r => row_id r =? key) (rows t)
       && existsb (fun r => negb (row_id r =? key) && bytes_eqb obj (row_data r))
                  (rows t)
    then (Raise IntegrityError, w)
    else
      (Return tt,
       {| self := self w;
          db := {| unique_data := unique_data t;
                   seq := seq t;
                   rows := map (set_data key obj) (rows t) |} |}).

(** Modelled from the spec: [sqlbase.SQLBase._count], which is not in the
    source tree.  Section 4.1: [count() -> integer]. *)
Definition _count : M Z :=
  fun w => (Return (Z.of_nat (length (rows (db w)))), w).

(** Modelled from the spec: [sqlbase.SQLBase._task_done], which is not in
    the source tree.  Section 4.3: after the batch delete, [task_done]
    persists nothing else. *)
Definition _task_done : M unit := ret tt.

(** Modelled from the spec: [sqlbase.SQLBase._sql_queue], which is not in
    the source tree.  Section 4.1: [selectAll() -> sequence of Record]. *)
Definition _sql_queue : M (list fetched) :=
  fun w =>
    (Return (map (project [key_column; data_column; timestamp_column])
                 (rows (db w))), w).

(** Modelled from the spec: [sqlbase.SQLiteBase._init], which is not in
    the source tree.  Section 4.4: create the table if absent; on a table
    that exists this changes nothing. *)
Definition _init : M unit := ret tt.

(** Modelled from the spec: the table a new handle works on, section 4.1
    [createTableIfAbsent(orderingVariant)], idempotent. *)
Definition createTableIfAbsent (k : queue_class) (file : option table) : table :=
  match file with
  | Some t => t
  | None => _SQL_CREATE k
  end.

End SQLBase.

(** ** What the methods take and return *)

(** [get(raw=True)] returns the dict [{'pqid', 'data', 'timestamp'}]. *)
Record raw_item (Item : Type) : Type := {
  pqid : cell;
  data : Item;
  timestamp : cell
}.

Inductive popped (Item : Type) : Type :=
  | plain (x : Item)
  | raw_dict (d : raw_item Item).

(** The [id] argument of [get]: absent (or anything that is neither an int
    nor a dict with a ["pqid"] key), an int, or a dict whose ["pqid"] is an
    int or [None]. *)
Inductive id_arg : Type :=
  | id_none
  | id_int (z : Z)
  | id_dict (pqid : option Z).

(** The [item] argument of [update]: a dict with a ["pqid"] key (its
    ["pqid"] an int or [None]) or any other value. *)
Inductive item_arg (Item : Type) : Type :=
  | item_plain (x : Item)
  | item_dict (pqid : option Z) (data : Item).

(** One turn of a blocking [get]'s loop: what [_time.time()] reads, and what
    other handles do to the table during [put_event.wait]. *)
Record tick : Type := {
  clock : Q;
  writers : table -> table
}.

Definition sleep (tk : tick) : M unit :=
  fun w => (Return tt, {| self := self w; db := writers tk (db w) |}).

Definition pending {A} : M A := fun w => (Pending, w).

(** ** class SQLiteQueue *)

Module SQLiteQueue.
Section WithSerializer.
Context {Item : Type} {serializer : Serializer Item}.

Definition put (item : Item) (now : Q) : M (option Z) :=
  let obj := dumps item in
  _id <- SQLBase._insert_into obj now ;;
  n <- attr total ;;
  set_total (n + 1) ;;
  set_put_event true ;;
  ret (Some _id).

Definition put_nowait (item : Item) (now : Q) : M (option Z) := put item now.

Definition _init : M unit :=
  SQLBase._init ;;
  ac <- attr auto_commit ;;
  (if negb ac then
     head <- SQLBase._select [] None None None ;;
     match head with
     | Some ((_ :: _) as head) =>
         c <- lift (item_at head 0) ;;
         i <- lift (as_int c) ;;
         set_cursor (i - 1)
     | _ => set_cursor 0
     end
   else ret tt) ;;
  n <- SQLBase._count ;;
  set_total n.

(** The tail both branches of [_pop] share: load the payload and build
    the result.  What [_pop] returns is a Python value, [None] on every
    path that found no row: [return item] with an item that is [None] is
    that same [None] to the caller, and so it is here; the raw dict never
    is. *)
Definition loaded (row : fetched) (raw : bool) : M (option (popped Item)) :=
  c1 <- lift (item_at row 1) ;;
  b <- lift (as_blob c1) ;;
  let item := loads b in
  if raw then
    c0 <- lift (item_at row 0) ;;
    c2 <- lift (item_at row 2) ;;
    ret (Some (raw_dict {| pqid := c0; data := item; timestamp := c2 |}))
  else ret (if is_none item then None else Some (plain item)).

Definition _pop (rowid : option Z) (raw : bool) : M (option (popped Item)) :=
  ac <- attr auto_commit ;;
  if ac then
    row <- SQLBase._select [] None None rowid ;;
    match row with
    | Some ((c0 :: _) as row) =>
        if is_None c0 then ret None
        else
          i <- lift (as_int c0) ;;
          SQLBase._delete i op_eq ;;
          n <- attr total ;;
          set_total (n - 1) ;;
          loaded row raw
    | _ => ret None
    end
  else
    cur <- attr cursor ;;
    k <- attr klass ;;
    row <- SQLBase._select [cur] (Some op_gt) (Some (_KEY_COLUMN k)) rowid ;;
    match row with
    | Some ((c0 :: _) as row) =>
        if is_None c0 then ret None
        else
          i <- lift (as_int c0) ;;
          set_cursor i ;;
          n <- attr total ;;
          set_total (n - 1) ;;
          loaded row raw
    | _ => ret None
    end.

(** [_id] is a local that only the two [if]s assign: [None] here is the
    unbound local, [Some None] the local holding Python's [None]. *)
Definition update (item : item_arg Item) (id : option Z) : M Z :=
  let '(_id, item) :=
    match item with
    | item_dict p d => (Some p, d)
    | item_plain x => (None, x)
    end in
  let _id := match id with Some i => Some (Some i) | None => _id end in
  match _id with
  | None => raise UnboundLocalError
  | Some None => raise ValueError
  | Some (Some i) =>
      let obj := dumps item in
      SQLBase._update i obj ;;
      ret i
  end.

Definition rowid_of (id : id_arg) : option Z :=
  match id with
  | id_dict p => p
  | id_int z => Some z
  | id_none => None
  end.

(** [while serialized is None] of the branch without a timeout: the test
    is on what [_pop] returned, so a record whose payload is [None] sends
    the loop round again like an empty table. *)
Fixpoint block_forever (pop : M (option (popped Item))) (sched : list tick)
  : M (popped Item) :=
  serialized <- pop ;;
  match serialized with
  | Some x => ret x
  | None =>
      set_put_event false ;;
      match sched with
      | [] => pending
      | tk :: sched' => sleep tk ;; block_forever pop sched'
      end
  end.

(** [while serialized is None] of the branch with a timeout.  The sum
    [now + timeout] and the difference [endtime - _time.time()] are exact
    here and rounded to the nearest double in Python.  Rounding keeps the
    order and is exact at 0, so a deadline that the exact sum has reached
    is reached in Python too; a wait that goes on here may end in Python,
    when [timeout] is lost in the rounding of the sum. *)
Fixpoint block_until (pop : M (option (popped Item))) (endtime : Q)
                     (sched : list tick) : M (popped Item) :=
  serialized <- pop ;;
  match serialized with
  | Some x => ret x
  | None =>
      set_put_event false ;;
      match sched with
      | [] => pending
      | tk :: sched' =>
          let remaining := (endtime - clock tk)%Q in
          if Qle_bool remaining 0 then raise Empty
          else sleep tk ;; block_until pop endtime sched'
      end
  end.

(** The body of [get], which [SQLiteQueue] and [MySQLQueue] spell the
    same; [pop] is the [self._pop] of the class, and [serialized is None]
    is the [None] branch of the match. *)
Definition get_with (pop : option Z -> bool -> M (option (popped Item)))
                    (block : bool) (timeout : option Q) (id : id_arg)
                    (raw : bool) (now : Q) (sched : list tick)
  : M (popped Item) :=
  let rowid := rowid_of id in
  if negb block then
    serialized <- pop rowid raw ;;
    match serialized with
    | None => raise Empty
    | Some x => ret x
    end
  else
    match timeout with
    | None => block_forever (pop rowid raw) sched
    | Some t =>
        if negb (Qle_bool 0 t) then raise ValueError
        else block_until (pop rowid raw) (now + t)%Q sched
    end.

Definition get := get_with _pop.

Definition get_nowait (id : id_arg) (raw : bool) : M (popped Item) :=
  get false None id raw 0%Q [].

Definition task_done : M unit :=
  ac <- attr auto_commit ;;
  if negb ac then
    cur <- attr cursor ;;
    SQLBase._delete cur op_le ;;
    SQLBase._task_done
  else ret tt.

(** The dicts [queue()] builds have the key ['id'] where [get] has
    ['pqid']. *)
Fixpoint queue_rows (rows : list fetched) : M (list (raw_item Item)) :=
  match rows with
  | [] => ret []
  | row :: rows' =>
      c0 <- lift (item_at row 0) ;;
      c1 <- lift (item_at row 1) ;;
      b <- lift (as_blob c1) ;;
      c2 <- lift (item_at row 2) ;;
      datarows <- queue_rows rows' ;;
      ret ({| pqid := c0; data := loads b; timestamp := c2 |} :: datarows)
  end.

Definition queue : M (list (raw_item Item)) :=
  rows <- SQLBase._sql_queue ;;
  queue_rows rows.

End WithSerializer.

Definition size (h : handle) : Z := total h.

Definition qsize (h : handle) : Z := Z.max 0 (size h).

Definition empty (h : handle) : bool := size h =? 0.

(** The method only: [len(q)] itself raises [ValueError] when [__len__]
    returns a negative number. *)
Definition __len__ (h : handle) : Z := size h.

End SQLiteQueue.

(** ** class UniqueQ(SQLiteQueue) *)

Module UniqueQ.
Section WithSerializer.
Context {Item : Type} {serializer : Serializer Item}.

(** [try: _id = self._insert_into(...) except sqlite3.IntegrityError: pass
    else: ...]. *)
Definition put (item : Item) (now : Q) : M (option Z) :=
  fun w =>
    let obj := dumps_sorted item in
    match SQLBase._insert_into obj now w with
    | (Raise IntegrityError, w') => (Return None, w')
    | (Return _id, w') =>
        (n <- attr total ;;
         set_total (n + 1) ;;
         set_put_event true ;;
         ret (Some _id)) w'
    | (Raise e, w') => (Raise e, w')
    | (Pending, w') => (Pending, w')
    end.

End WithSerializer.
End UniqueQ.

(** ** class MySQLQueue(SQLBase) *)

Module MySQLQueue.
Section WithSerializer.
Context {Item : Type} {serializer : Serializer Item}.

Definition put (item : Item) (now : Q) : M (option Z) :=
  let obj := dumps item in
  _id <- SQLBase._insert_into obj now ;;
  set_put_event true ;;
  ret (Some _id).

Definition put_nowait (item : Item) (now : Q) : M (option Z) := put item now.

(** The second [_init] of the class body, which is the one in force;
    [__init__] does not call it. *)
Definition _init : M unit :=
  ac <- attr auto_commit ;;
  (if negb ac then
     head <- SQLBase._select [] None None None ;;
     match head with
     | Some ((_ :: _) as head) =>
         c <- lift (item_at head 0) ;;
         i <- lift (as_int c) ;;
         set_cursor (i - 1)
     | _ => set_cursor 0
     end
   else ret tt) ;;
  n <- SQLBase._count ;;
  set_total n.

Definition _pop (rowid : option Z) (raw : bool) : M (option (popped Item)) :=
  row <- SQLBase._select [] None None rowid ;;
  match row with
  | Some ((c0 :: _) as row) =>
      if is_None c0 then ret None
      else
        i <- lift (as_int c0) ;;
        SQLBase._delete i op_eq ;;
        SQLiteQueue.loaded row raw
  | _ => ret None
  end.

Definition update : item_arg Item -> option Z -> M Z := SQLiteQueue.update.

Definition get := SQLiteQueue.get_with _pop.

Definition get_nowait (id : id_arg) (raw : bool) : M (popped Item) :=
  get false None id raw 0%Q [].

Definition task_done : M unit :=
  ac <- attr auto_commit ;;
  if negb ac then
    cur <- attr cursor ;;
    SQLBase._delete cur op_le ;;
    SQLBase._task_done
  else ret tt.

End WithSerializer.

Definition size (h : handle) : Z := total h.

Definition qsize (h : handle) : Z := Z.max 0 (size h).

Definition empty (h : handle) : bool := size h =? 0.

End MySQLQueue.

(** ** Method resolution and construction *)

Section Dispatch.
Context {Item : Type} {serializer : Serializer Item}.

(** [self.put], [self._pop], [self.task_done] of a handle:
    [FILOSQLiteQueue] inherits every method of [SQLiteQueue], [UniqueQ]
    overrides [put] only, [MySQLQueue] defines its own. *)
Definition put (item : Item) (now : Q) : M (option Z) :=
  k <- attr klass ;;
  match k with
  | UniqueQ => UniqueQ.put item now
  | MySQLQueue => MySQLQueue.put item now
  | _ => SQLiteQueue.put item now
  end.

Definition _pop (rowid : option Z) (raw : bool) : M (option (popped Item)) :=
  k <- attr klass ;;
  match k with
  | MySQLQueue => MySQLQueue._pop rowid raw
  | _ => SQLiteQueue._pop rowid raw
  end.

Definition get (block : bool) (timeout : option Q) (id : id_arg) (raw : bool)
               (now : Q) (sched : list tick) : M (popped Item) :=
  SQLiteQueue.get_with _pop block timeout id raw now sched.

Definition get_nowait (id : id_arg) (raw : bool) : M (popped Item) :=
  get false None id raw 0%Q [].

Definition task_done : M unit :=
  k <- attr klass ;;
  match k with
  | MySQLQueue => MySQLQueue.task_done
  | _ => SQLiteQueue.task_done
  end.

(** Modelled from the spec: the constructor of [sqlbase.SQLiteBase], which
    is not in the source tree and which [SQLiteQueue], [FILOSQLiteQueue]
    and [UniqueQ] inherit.  Sections 3 and 4.4: a handle is created on
    queue open with its mode, the table is created if absent, and [_init]
    reconciles [cursor] and [total] with the store.  [MySQLQueue] has a
    constructor of its own in the source, which takes no [auto_commit]
    (passing one is a [TypeError]) and builds no such handle. *)
Definition open (k : queue_class) (auto_commit : bool) (file : option table)
  : outcome unit * world :=
  let w := {| self := {| klass := k; auto_commit := auto_commit; cursor := 0;
                         total := 0; put_event := false |};
              db := SQLBase.createTableIfAbsent k file |} in
  match k with
  | MySQLQueue => (Raise TypeError, w)
  | _ => SQLiteQueue._init w
  end.

End Dispatch.

(** ** Vocabulary of the statements *)

(** What [get] makes of a row fetched with the three columns. *)
Definition result_of {Item} {serializer : Serializer Item}
                     (r : record) (raw : bool) : popped Item :=
  if raw then raw_dict {| pqid := Int (row_id r);
                          data := loads (row_data r);
                          timestamp := Float (row_timestamp r) |}
  else plain (loads (row_data r)).

(** A row that [get] can tell from "no record": raw mode is on, or its
    payload is not [None]. *)
Definition visible {Item} {serializer : Serializer Item}
                   (r : record) (raw : bool) : Prop :=
  raw = true \/ is_none (loads (row_data r)) = false.

(** What [_pop] returns for such a row, and for any other. *)
Definition popped_of {Item} {serializer : Serializer Item}
                     (r : record) (raw : bool) : option (popped Item) :=
  if raw then Some (result_of r true)
  else if is_none (loads (row_data r)) then None
       else Some (result_of r false).

Definition with_cursor (c : Z) (h : handle) : handle :=
  {| klass := klass h; auto_commit := auto_commit h; cursor := c;
     total := total h; put_event := put_event h |}.

Definition with_total (n : Z) (h : handle) : handle :=
  {| klass := klass h; auto_commit := auto_commit h; cursor := cursor h;
     total := n; put_event := put_event h |}.

Definition after (c : Z) (r : record) : bool := row_id r >? c.

(** The row the class's [_SQL_SELECT] treats as the head of the table. *)
Definition head_of (k : queue_class) (t : table) : option record :=
  limit_1 (sel_order (_SQL_SELECT k)) (rows t).

(** The world right after [open k False] on an existing table. *)
Definition opened (k : queue_class) (t : table) : world :=
  {| self := {| klass := k; auto_commit := false;
                cursor := match head_of k t with
                          | Some r => row_id r - 1
                          | None => 0
                          end;
                total := Z.of_nat (length (rows t));
                put_event := false |};
     db := t |}.

(** ** Concrete data for the examples *)

(** A serializer that stores byte strings as they are. *)
#[local] Instance raw_bytes : Serializer bytes :=
  {| dumps := fun b => b; dumps_sorted := fun b => b; loads := fun b => b;
     is_none := fun _ => false |}.

(** A serializer of values that are a byte string or [None]: [None] is
    stored as [N.], its pickle, and a byte string behind the letter [B]. *)
Definition dumps_or_none (x : option bytes) : bytes :=
  match x with
  | None => [x4e; x2e]%byte
  | Some b => x42%byte :: b
  end.

Definition loads_or_none (b : bytes) : option bytes :=
  match b with
  | x42%byte :: b' => Some b'
  | _ => None
  end.

#[local] Instance bytes_or_none : Serializer (option bytes) | 10 :=
  {| dumps := dumps_or_none; dumps_sorted := dumps_or_none;
     loads := loads_or_none;
     is_none := fun x => match x with None => true | Some _ => false end |}.

(** A table whose one row holds the payload of [None]. *)
Definition table_none : table :=
  {| unique_data := false; seq := 1;
     rows := [{| row_id := 1; row_data := dumps_or_none None;
                 row_timestamp := 1 |}] |}.

Definition item_a : bytes := [x61]%byte.
Definition item_b : bytes := [x62]%byte.
Definition item_c : bytes := [x63]%byte.

Definition row (i : Z) (d : bytes) : record :=
  {| row_id := i; row_data := d; row_timestamp := inject_Z i |}.

(** Tables of one, two and three rows, as [put] leaves them. *)
Definition table_a : table :=
  {| unique_data := false; seq := 1; rows := [row 1 item_a] |}.

Definition table_ab : table :=
  {| unique_data := false; seq := 2; rows := [row 1 item_a; row 2 item_b] |}.

Definition table_abc : table :=
  {| unique_data := false; seq := 3;
     rows := [row 1 item_a; row 2 item_b; row 3 item_c] |}.

(** ** Sequences of calls *)

Section Calls.
Context {Item : Type} {serializer : Serializer Item}.

(** [n] calls of [get(block, raw=raw)] in a row, collecting what they
    return. *)
Fixpoint get_n (n : nat) (block raw : bool) : M (list (popped Item)) :=
  match n with
  | O => ret []
  | S n' =>
      x <- get block None id_none raw 0%Q [] ;;
      xs <- get_n n' block raw ;;
      ret (x :: xs)
  end.

(** One [put] per item, each with the clock reading it is made at. *)
Fixpoint put_each (items : list (Item * Q)) : M (list (option Z)) :=
  match items with
  | [] => ret []
  | (item, now) :: items' =>
      i <- put item now ;;
      l <- put_each items' ;;
      ret (i :: l)
  end.

End Calls.

(** ** Histories: calls made on a shared table by any handles *)

Section Histories.
Context {Item : Type} {serializer : Serializer Item}.

Inductive call : Type :=
  | call_put (item : Item) (now : Q)
  | call_get (block : bool) (timeout : option Q) (id : id_arg) (raw : bool)
             (now : Q)
  | call_update (item : item_arg Item) (id : option Z)
  | call_task_done.

Definition perform (c : call) : M unit :=
  match c with
  | call_put item now => put item now ;; ret tt
  | call_get block timeout id raw now =>
      get block timeout id raw now [] ;; ret tt
  | call_update item id => SQLiteQueue.update item id ;; ret tt
  | call_task_done => task_done
  end.

(** The table after a sequence of calls, each made by a handle in whatever
    state (class, mode, cursor, counters) it happens to be. *)
Fixpoint history (steps : list (handle * call)) (t : table) : table :=
  match steps with
  | [] => t
  | (h, c) :: steps' =>
      history steps' (db (snd (perform c {| self := h; db := t |})))
  end.

End Histories.

(** [t'] comes after [t]: the AUTOINCREMENT counter has not gone back, and
    a row of [t'] either has the key of a row of [t] or a key handed out
    since. *)
Definition succeeds (t t' : table) : Prop :=
  seq t <= seq t' /\
  forall r', In r' (rows t') ->
    (exists r, In r (rows t) /\ row_id r' = row_id r) \/ seq t < row_id r'.

(** A method that only ever takes the table to a later one. *)
Definition forward {A} (c : M A) : Prop :=
  forall w, succeeds (db w) (db (snd (c w))).

(** Nothing at or below key [c] is left, and nothing will be handed out
    there. *)
Definition gone_up_to (c : Z) (t : table) : Prop :=
  c <= seq t /\ forall r, In r (rows t) -> c < row_id r.

(** The rows that [put_each items] appends to a table whose AUTOINCREMENT
    counter is [s]. *)
Fixpoint enqueued {Item} {serializer : Serializer Item}
                  (s : Z) (items : list (Item * Q)) : list record :=
  match items with
  | [] => []
  | (item, now) :: items' =>
      {| row_id := s + 1; row_data := dumps item; row_timestamp := now |}
        :: enqueued (s + 1) items'
  end.

(** A table of the unique variant holding two payloads. *)
Definition unique_table_ab : table :=
  {| unique_data := true; seq := 2; rows := [row 1 item_a; row 2 item_b] |}.

Definition unique_world : world :=
  {| self := {| klass := UniqueQ; auto_commit := true; cursor := 0;
                total := 2; put_event := false |};
     db := unique_table_ab |}.

(** A handle of another process on the same table. *)
Definition other_handle : handle :=
  {| klass := FIFOSQLiteQueue; auto_commit := true; cursor := 0;
     total := 0; put_event := false |}.

(** No key of the table is above its AUTOINCREMENT counter. *)
Definition bounded (t : table) : Prop :=
  0 <= seq t /\ forall r, In r (rows t) -> row_id r <= seq t.

(** A deferred handle after one [get] on a table of two rows. *)
Definition world_after_one_get : world :=
  snd (get (Item := bytes) true None id_none false 0%Q []
           (snd (open FIFOSQLiteQueue false (Some table_ab)))).

(** ** Invariants of the table *)

(** Rows stand in the order of their keys, which are all below the
    AUTOINCREMENT counter. *)
Definition key_ordered (t : table) : Prop :=
  StronglySorted Z.lt (ids t) /\ bounded t.

(** A method that leaves a property of the table in place. *)
Definition keeps {A} (P : table -> Prop) (c : M A) : Prop :=
  forall w, P (db w) -> P (db (snd (c w))).

(** Another process puts [item_a] into the table while a [get] sleeps. *)
Definition writer_puts_a : tick :=
  {| clock := 0%Q;
     writers := fun t => history [(other_handle, call_put item_a 1%Q)] t |}.

(** The calls one handle makes one after the other; a call that raises
    leaves the handle as it is at that point, and the next call goes on
    from there (a blocking [get] that finds nothing is followed up to the
    point where it starts to wait). *)
Fixpoint session {Item} {serializer : Serializer Item}
                 (calls : list call) (w : world) : world :=
  match calls with
  | [] => w
  | c :: calls' => session calls' (snd (perform c w))
  end.

(** An auto-commit handle of an SQLite class whose [total] is the number
    of rows of its table. *)
Definition counted (w : world) : Prop :=
  klass (self w) <> MySQLQueue /\ auto_commit (self w) = true /\
  key_ordered (db w) /\
  total (self w) = Z.of_nat (length (rows (db w))).

(** ** class MySQLConn

    The wrapper keeps a driver connection [_conn], the cursor [__enter__]
    opened, and the flag [closed].  The driver is outside the module: what
    the wrapper asks of it is recorded, in order, in [asked]; a cursor is
    known by the number of the [cursor()] call that made it. *)

Module MySQLConn.

Inductive driver_call : Type :=
  | conn_cursor (c : nat)               (* self._conn.cursor() gave cursor c *)
  | conn_commit                         (* self._conn.commit() *)
  | conn_close                          (* self._conn.close() *)
  | cursor_close (c : nat)              (* c.close() *)
  | cursor_execute (c : nat) (sql : bytes).   (* c.execute(sql) *)

Record conn : Type := {
  _cursor : option nat;
  closed : bool;
  asked : list driver_call;
  cursors : nat                         (* cursors the driver has handed out *)
}.

(** [self._cursor.close()] on [None] is an [AttributeError]. *)
Inductive result (A : Type) : Type :=
  | Done (a : A)
  | AttributeError.

Arguments AttributeError {A}.

Definition __init__ : conn :=
  {| _cursor := None; closed := false; asked := []; cursors := 0 |}.

Definition __enter__ (s : conn) : result unit * conn :=
  (Done tt,
   {| _cursor := Some (cursors s); closed := closed s;
      asked := asked s ++ [conn_cursor (cursors s)];
      cursors := S (cursors s) |}).

Definition __exit__ (s : conn) : result unit * conn :=
  let s1 := {| _cursor := _cursor s; closed := closed s;
               asked := asked s ++ [conn_commit]; cursors := cursors s |} in
  match _cursor s with
  | Some c =>
      (Done tt,
       {| _cursor := _cursor s; closed := closed s;
          asked := asked s1 ++ [cursor_close c]; cursors := cursors s |})
  | None => (AttributeError, s1)
  end.

Definition execute (sql : bytes) (s : conn) : result nat * conn :=
  let cursor := cursors s in
  (Done cursor,
   {| _cursor := _cursor s; closed := closed s;
      asked := asked s ++ [conn_cursor cursor; cursor_execute cursor sql];
      cursors := S (cursors s) |}).

Definition close (s : conn) : result unit * conn :=
  (Done tt,
   {| _cursor := _cursor s; closed := true;
      asked := if negb (closed s) then asked s ++ [conn_close] else asked s;
      cursors := cursors s |}).

(** The calls a user makes on one wrapper, one after the other. *)
Inductive method : Type :=
  | m_enter
  | m_exit
  | m_execute (sql : bytes)
  | m_close.

Definition call (m : method) (s : conn) : conn :=
  match m with
  | m_enter => snd (__enter__ s)
  | m_exit => snd (__exit__ s)
  | m_execute sql => snd (execute sql s)
  | m_close => snd (close s)
  end.

Definition calls (ms : list method) (s : conn) : conn :=
  fold_left (fun s m => call m s) ms s.

Definition is_close (d : driver_call) : bool :=
  match d with conn_close => true | _ => false end.

Definition is_commit (d : driver_call) : bool :=
  match d with conn_commit => true | _ => false end.

Definition times (p : driver_call -> bool) (s : conn) : nat :=
  length (filter p (asked s)).

End MySQLConn.

(** A call that names no record: every call but a [get] with an explicit
    id. *)
Definition without_id {Item} (c : call (Item := Item)) : Prop :=
  match c with
  | call_get _ _ id _ _ => SQLiteQueue.rowid_of id = None
  | _ => True
  end.

(** The rows a deferred handle has not fetched yet: those above its
    cursor. *)
Definition unfetched (w : world) : Z :=
  Z.of_nat (length (filter (after (cursor (self w))) (rows (db w)))).

(** A deferred handle of an SQLite class whose [total] is the number of
    rows it has not fetched. *)
Definition tracking (w : world) : Prop :=
  klass (self w) <> MySQLQueue /\ auto_commit (self w) = false /\
  key_ordered (db w) /\ cursor (self w) <= seq (db w) /\
  total (self w) = unfetched w.

(** * Properties *)

Unset Implicit Arguments.

(** ** The store: [ORDER BY ... LIMIT 1] *)

Lemma limit_1_In (o : order) (l : list record) (r : record) :
  limit_1 o l = Some r -> In r l.
Proof.
  revert r; induction l as [|a l IH]; simpl; intros r H; [discriminate|].
  destruct (limit_1 o l) as [r'|].
  - destruct (comes_first o a r'); inversion H; subst; auto.
  - inversion H; auto.
Qed.

Lemma limit_1_None (o : order) (l : list record) :
  limit_1 o l = None -> l = [].
Proof.
  destruct l as [|a l]; simpl; [reflexivity|].
  destruct (limit_1 o l) as [r'|]; [destruct (comes_first o a r')|]; discriminate.
Qed.

Lemma limit_1_ASC_least (l : list record) (r : record) :
  limit_1 ASC l = Some r -> forall r', In r' l -> row_id r <= row_id r'.
Proof.
  revert r; induction l as [|a l IH]; simpl; intros r H r' Hin; [contradiction|].
  destruct (limit_1 ASC l) as [m|] eqn:E.
  - specialize (IH m eq_refl).
    destruct (Z.leb_spec (row_id a) (row_id m)); inversion H; subst;
      destruct Hin as [<-|Hin]; try lia; specialize (IH _ Hin); lia.
  - inversion H; subst. apply limit_1_None in E; subst.
    destruct Hin as [<-|[]]; lia.
Qed.

Lemma limit_1_DESC_greatest (l : list record) (r : record) :
  limit_1 DESC l = Some r -> forall r', In r' l -> row_id r' <= row_id r.
Proof.
  revert r; induction l as [|a l IH]; simpl; intros r H r' Hin; [contradiction|].
  destruct (limit_1 DESC l) as [m|] eqn:E.
  - specialize (IH m eq_refl).
    destruct (Z.leb_spec (row_id m) (row_id a)); inversion H; subst;
      destruct Hin as [<-|Hin]; try lia; specialize (IH _ Hin); lia.
  - inversion H; subst. apply limit_1_None in E; subst.
    destruct Hin as [<-|[]]; lia.
Qed.

Lemma limit_1_some (o : order) (l : list record) :
  l <> [] -> exists r, limit_1 o l = Some r.
Proof.
  intros H. destruct (limit_1 o l) as [r|] eqn:E; [eauto|].
  apply limit_1_None in E; contradiction.
Qed.

(** ** From [_pop] to [get] *)

Section GetOfPop.
Context {Item : Type} {serializer : Serializer Item}.

Lemma popped_of_visible (r : record) (raw : bool) :
  visible r raw -> popped_of r raw = Some (result_of r raw).
Proof.
  unfold visible, popped_of. intros [->|H]; [reflexivity|].
  destruct raw; [reflexivity|]. rewrite H. reflexivity.
Qed.

Lemma popped_of_hidden (r : record) :
  is_none (loads (row_data r)) = true -> popped_of r false = None.
Proof. unfold popped_of. intros ->. reflexivity. Qed.

Lemma popped_of_some (r : record) (raw : bool) (x : popped Item) :
  popped_of r raw = Some x -> x = result_of r raw /\ visible r raw.
Proof.
  unfold popped_of, visible. destruct raw.
  - intros H. inversion H. auto.
  - destruct (is_none (loads (row_data r))); [discriminate|].
    intros H. inversion H. auto.
Qed.

Lemma get_of_pop (w w' : world) (block raw : bool) (id : id_arg) (now : Q)
      (sched : list tick) (x : popped Item) :
  _pop (SQLiteQueue.rowid_of id) raw w = (Return (Some x), w') ->
  get block None id raw now sched w = (Return x, w').
Proof.
  intros Hpop. unfold get, SQLiteQueue.get_with.
  destruct block; simpl.
  - destruct sched; simpl; unfold bind; rewrite Hpop; reflexivity.
  - unfold bind; rewrite Hpop; reflexivity.
Qed.

(** A [_pop] that hands back [None] is an empty queue to
    [get(block=False)]. *)
Lemma get_of_pop_none (w w' : world) (raw : bool) (timeout : option Q)
      (id : id_arg) (now : Q) (sched : list tick) :
  _pop (Item := Item) (SQLiteQueue.rowid_of id) raw w = (Return None, w') ->
  get (Item := Item) false timeout id raw now sched w = (Raise Empty, w').
Proof.
  intros Hpop. unfold get, SQLiteQueue.get_with. simpl.
  unfold bind. rewrite Hpop. reflexivity.
Qed.

(** A [get] that returns, before any wait, returns what its [_pop]
    did. *)
Lemma get_returns_pop (w w' : world) (block : bool) (timeout : option Q)
      (id : id_arg) (raw : bool) (now : Q) (x : popped Item) :
  get block timeout id raw now [] w = (Return x, w') ->
  _pop (SQLiteQueue.rowid_of id) raw w = (Return (Some x), w').
Proof.
  unfold get, SQLiteQueue.get_with.
  destruct block; simpl.
  - destruct timeout as [t|]; [destruct (Qle_bool 0 t)|]; simpl;
      try discriminate; unfold bind;
      destruct (_pop (SQLiteQueue.rowid_of id) raw w) as [[[y|]| |] w1];
      simpl; intros H; inversion H; subst; reflexivity.
  - unfold bind.
    destruct (_pop (SQLiteQueue.rowid_of id) raw w) as [[[y|]| |] w1];
      simpl; intros H; inversion H; subst; reflexivity.
Qed.

Lemma pop_sqlite (w : world) (rowid : option Z) (raw : bool) :
  klass (self w) <> MySQLQueue ->
  _pop (Item := Item) rowid raw w = SQLiteQueue._pop rowid raw w.
Proof.
  intros Hk. unfold _pop, bind, attr.
  destruct (klass (self w)); congruence.
Qed.

End GetOfPop.

(** ** [SQLiteQueue._pop] in deferred-commit mode *)

Section Deferred.
Context {Item : Type} {serializer : Serializer Item}.

Lemma pop_deferred_found (w : world) (raw : bool) (r : record) :
  auto_commit (self w) = false ->
  limit_1 ASC (filter (after (cursor (self w))) (rows (db w))) = Some r ->
  SQLiteQueue._pop None raw w =
    (Return (popped_of r raw),
     {| self := with_total (total (self w) - 1) (with_cursor (row_id r) (self w));
        db := db w |}).
Proof.
  intros Hac Hsel.
  unfold SQLiteQueue._pop, bind, attr. rewrite Hac. simpl.
  unfold run_select. simpl.
  change (filter _ (rows (db w)))
    with (filter (after (cursor (self w))) (rows (db w))).
  rewrite Hsel. simpl. destruct raw; reflexivity.
Qed.

Lemma pop_deferred_none (w : world) (raw : bool) :
  auto_commit (self w) = false ->
  limit_1 ASC (filter (after (cursor (self w))) (rows (db w))) = None ->
  SQLiteQueue._pop None raw w = (Return None, w).
Proof.
  intros Hac Hsel.
  unfold SQLiteQueue._pop, bind, attr. rewrite Hac. simpl.
  unfold run_select. simpl.
  change (filter _ (rows (db w)))
    with (filter (after (cursor (self w))) (rows (db w))).
  rewrite Hsel. reflexivity.
Qed.

End Deferred.

(** ** C1: [get] in deferred-commit mode *)

Section DeferredGet.
Context {Item : Type} {serializer : Serializer Item}.

Lemma filter_after_least (c : Z) (l : list record) (r : record) :
  limit_1 ASC (filter (after c) l) = Some r ->
  In r l /\ c < row_id r /\
  forall r', In r' l -> c < row_id r' -> row_id r <= row_id r'.
Proof.
  intros H. pose proof (limit_1_In _ _ _ H) as Hin.
  apply filter_In in Hin. destruct Hin as [Hin Hc].
  unfold after in Hc. apply Z.gtb_lt in Hc.
  repeat split; auto; try lia.
  intros r' Hin' Hc'. apply (limit_1_ASC_least _ _ H).
  apply filter_In. split; auto. unfold after. apply Z.gtb_lt. lia.
Qed.

Lemma filter_after_some (c : Z) (l : list record) (r0 : record) :
  In r0 l -> c < row_id r0 ->
  exists r, limit_1 ASC (filter (after c) l) = Some r.
Proof.
  intros Hin Hc. apply limit_1_some. intros E.
  assert (In r0 (filter (after c) l)) as H.
  { apply filter_In. split; auto. unfold after. apply Z.gtb_lt. lia. }
  rewrite E in H. contradiction.
Qed.

(** The dispatched [_pop] of an SQLite class in deferred-commit mode, on
    the least row above the cursor. *)
Lemma pop_deferred_least (w : world) (raw : bool) (r : record) :
  klass (self w) <> MySQLQueue -> auto_commit (self w) = false ->
  limit_1 ASC (filter (after (cursor (self w))) (rows (db w))) = Some r ->
  _pop None raw w =
    (Return (popped_of r raw),
     {| self := with_total (total (self w) - 1) (with_cursor (row_id r) (self w));
        db := db w |}).
Proof.
  intros Hk Hac Hsel. rewrite (pop_sqlite w None raw Hk).
  apply pop_deferred_found; assumption.
Qed.

End DeferredGet.




(** ** Opening a handle *)

Lemma filter_true {A} (l : list A) : filter (fun _ => true) l = l.
Proof. induction l; simpl; congruence. Qed.

Lemma filter_all {A} (p : A -> bool) (l : list A) :
  (forall a, In a l -> p a = true) -> filter p l = l.
Proof.
  induction l as [|a l IH]; simpl; intros H; [reflexivity|].
  rewrite (H a) by auto. f_equal. apply IH. auto.
Qed.

Lemma filter_nothing {A} (p : A -> bool) (l : list A) :
  (forall a, In a l -> p a = false) -> filter p l = [].
Proof.
  induction l as [|a l IH]; simpl; intros H; [reflexivity|].
  rewrite (H a) by auto. apply IH. auto.
Qed.

Lemma open_deferred (k : queue_class) (t : table) :
  k <> MySQLQueue -> open k false (Some t) = (Return tt, opened k t).
Proof.
  intros Hk. unfold open, opened, head_of. simpl.
  destruct k; try congruence; simpl;
    unfold SQLiteQueue._init, SQLBase._init, bind, attr, ret;
    simpl; unfold run_select; simpl; rewrite filter_true;
    match goal with |- context [limit_1 ?o ?l] => destruct (limit_1 o l) end;
    reflexivity.
Qed.

Lemma open_any_file (k : queue_class) (file : option table) :
  k <> MySQLQueue ->
  open k false file = (Return tt, opened k (SQLBase.createTableIfAbsent k file)).
Proof.
  intros Hk. destruct file as [t|]; [apply open_deferred; assumption|].
  apply (open_deferred k (_SQL_CREATE k) Hk).
Qed.

Lemma ids_inj (l : list record) (a b : record) :
  NoDup (map row_id l) -> In a l -> In b l -> row_id a = row_id b -> a = b.
Proof.
  induction l as [|x l IH]; simpl; intros Hnd Ha Hb E; [contradiction|].
  inversion Hnd as [|? ? Hx Hl]; subst.
  destruct Ha as [<-|Ha], Hb as [<-|Hb]; auto.
  - exfalso. apply Hx. rewrite E. apply in_map. assumption.
  - exfalso. apply Hx. rewrite <- E. apply in_map. assumption.
Qed.

(** The cursor that [_init] computes sits just below the head, so the
    first row above it is the head again. *)
Lemma head_above_cursor (k : queue_class) (t : table) (r : record) :
  NoDup (ids t) -> head_of k t = Some r ->
  limit_1 ASC (filter (after (row_id r - 1)) (rows t)) = Some r.
Proof.
  intros Hnd Hhead. unfold head_of in Hhead.
  destruct (sel_order (_SQL_SELECT k)) eqn:Eo.
  - rewrite filter_all; [assumption|].
    intros a Ha. unfold after. apply Z.gtb_lt.
    pose proof (limit_1_ASC_least _ _ Hhead a Ha). lia.
  - pose proof (limit_1_In _ _ _ Hhead) as Hin.
    destruct (filter_after_some (row_id r - 1) (rows t) r Hin ltac:(lia))
      as [r' Hr'].
    destruct (filter_after_least _ _ _ Hr') as (Hin' & Hlt & _).
    pose proof (limit_1_DESC_greatest _ _ Hhead r' Hin').
    rewrite Hr'. f_equal.
    apply (ids_inj (rows t)); auto. lia.
Qed.

Lemma limit_1_ASC_head (r : record) (l : list record) :
  (forall r', In r' l -> row_id r < row_id r') -> limit_1 ASC (r :: l) = Some r.
Proof.
  intros H. simpl. destruct (limit_1 ASC l) as [m|] eqn:E; [|reflexivity].
  apply limit_1_In in E. specialize (H m E).
  simpl. destruct (Z.leb_spec (row_id r) (row_id m)); [reflexivity|lia].
Qed.

Section Replay.
Context {Item : Type} {serializer : Serializer Item}.

(** Without a row above the cursor, a deferred [get] gives nothing. *)
Lemma get_deferred_nothing (w : world) (block raw : bool) :
  klass (self w) <> MySQLQueue -> auto_commit (self w) = false ->
  limit_1 ASC (filter (after (cursor (self w))) (rows (db w))) = None ->
  forall x w', get (Item := Item) block None id_none raw 0%Q [] w <> (Return x, w').
Proof.
  intros Hk Hac Hsel x w'.
  pose proof (pop_deferred_none (Item := Item) w raw Hac Hsel) as Hpop.
  rewrite <- (pop_sqlite w None raw Hk) in Hpop.
  unfold get, SQLiteQueue.get_with.
  destruct block; simpl; unfold bind; rewrite Hpop; simpl; discriminate.
Qed.

Lemma get_deferred_least (w : world) (block raw : bool) (r : record) :
  klass (self w) <> MySQLQueue -> auto_commit (self w) = false ->
  limit_1 ASC (filter (after (cursor (self w))) (rows (db w))) = Some r ->
  visible r raw ->
  get block None id_none raw 0%Q [] w =
    (Return (result_of r raw),
     {| self := with_total (total (self w) - 1) (with_cursor (row_id r) (self w));
        db := db w |}).
Proof.
  intros Hk Hac Hsel Hv. apply get_of_pop. simpl.
  rewrite (pop_deferred_least w raw r Hk Hac Hsel).
  rewrite (popped_of_visible r raw Hv). reflexivity.
Qed.

(** A deferred handle walks the rows above its cursor in ascending key
    order, one per [get], when the table keeps them in key order and
    [get] can tell each of them from "no record". *)
Lemma replay_in_order (block raw : bool) (post : list record) :
  forall (w : world) (pre : list record),
    klass (self w) <> MySQLQueue -> auto_commit (self w) = false ->
    rows (db w) = pre ++ post ->
    (forall r, In r pre -> row_id r <= cursor (self w)) ->
    (forall r, In r post -> cursor (self w) < row_id r) ->
    (forall r, In r post -> visible r raw) ->
    StronglySorted Z.lt (map row_id post) ->
    exists w',
      get_n (length post) block raw w =
        (Return (map (fun r => result_of r raw) post), w') /\
      db w' = db w.
Proof.
  induction post as [|r post IH]; intros w pre Hk Hac Hrows Hpre Hpost Hvis Hs.
  - simpl. exists w. split; reflexivity.
  - simpl in Hs. inversion Hs as [|? ? Hs' Hall]; subst.
    assert (limit_1 ASC (filter (after (cursor (self w))) (rows (db w)))
            = Some r) as Hsel.
    { rewrite Hrows, filter_app, filter_nothing, filter_all.
      - apply limit_1_ASC_head. intros r' Hr'.
        rewrite Forall_forall in Hall. apply Hall. apply in_map. assumption.
      - intros a Ha. unfold after. apply Z.gtb_lt. specialize (Hpost a Ha). lia.
      - intros a Ha. unfold after. specialize (Hpre a Ha).
        destruct (Z.gtb_spec (row_id a) (cursor (self w))); [lia|reflexivity]. }
    pose proof (get_deferred_least w block raw r Hk Hac Hsel
                  (Hvis r (or_introl eq_refl))) as Hget.
    set (w1 := {| self := with_total (total (self w) - 1)
                                     (with_cursor (row_id r) (self w));
                  db := db w |}) in *.
    destruct (IH w1 (pre ++ [r])) as (w' & Hn & Hdb); simpl; auto.
    + rewrite Hrows, <- app_assoc. reflexivity.
    + intros a Ha. apply in_app_or in Ha. destruct Ha as [Ha|[<-|[]]]; [|lia].
      specialize (Hpre a Ha). specialize (Hpost r (or_introl eq_refl)). lia.
    + intros a Ha. rewrite Forall_forall in Hall. apply Hall.
      apply in_map. assumption.
    + intros a Ha. apply Hvis. right. assumption.
    + exists w'. split; [|assumption].
      change (get_n (S (length post)) block raw w)
        with (bind (get block None id_none raw 0%Q [])
                (fun x => bind (get_n (length post) block raw)
                            (fun xs => ret (x :: xs))) w).
      unfold bind at 1. rewrite Hget. unfold bind. rewrite Hn. reflexivity.
Qed.

End Replay.

(** ** C2: what a fresh handle offers *)

(** C2, as stated, fails: after two [get]s without [task_done] on a table
    of two rows, a fresh handle's next [get] returns the first record, not
    the second one, although the second one too was returned and never
    followed by [task_done]. *)
Lemma C2_second_unacknowledged_record_is_not_next :
  let w0 := snd (open FIFOSQLiteQueue false (Some table_ab)) in
  exists w1 w2 w3 first second,
    get (Item := bytes) true None id_none true 0%Q [] w0 = (Return first, w1) /\
    get true None id_none true 0%Q [] w1 = (Return second, w2) /\
    second = raw_dict {| pqid := Int 2; data := item_b; timestamp := Float 2 |} /\
    get true None id_none true 0%Q []
        (snd (open FIFOSQLiteQueue false (Some (db w2)))) = (Return first, w3) /\
    first <> second.
Proof.
  simpl. do 5 eexists. repeat split. discriminate.
Qed.

(** C2 (amended): opening a handle of [SQLiteQueue], [FILOSQLiteQueue] or
    [UniqueQ] in deferred-commit mode, on a table whose ids are pairwise
    distinct, sets the cursor to the head record's id minus one (0 on an
    empty table) and the total to the row count.  The next [get] of the
    fresh handle therefore returns the head record of the store, when raw
    mode is on or the payload of that record is not [None]; and the
    record that the first [get] of a fresh handle returns, with no
    [task_done] after it, is returned again by the next [get] of another
    fresh handle on the same store.  On a table in FIFO order whose
    records [get] can all return, the fresh handle returns every present
    record, one per [get], in ascending id order. *)
Theorem C2_open_recomputes_and_replays
        {Item : Type} {serializer : Serializer Item}
        (k : queue_class) (file : option table) (block raw : bool) :
  let t := SQLBase.createTableIfAbsent k file in
  k <> MySQLQueue -> NoDup (ids t) ->
  exists w,
    open k false file = (Return tt, w) /\ db w = t /\
    cursor (self w) = match head_of k t with
                      | Some r => row_id r - 1
                      | None => 0
                      end /\
    total (self w) = Z.of_nat (length (rows t)) /\
    (forall r, head_of k t = Some r ->
       raw = true \/ is_none (loads (row_data r)) = false ->
       exists w', get block None id_none raw 0%Q [] w
                  = (Return (result_of r raw), w') /\ db w' = t) /\
    (forall (x : popped Item) w1,
       get block None id_none raw 0%Q [] w = (Return x, w1) ->
       exists w2, get block None id_none raw 0%Q []
                      (snd (open k false (Some (db w1)))) = (Return x, w2)) /\
    (k <> FILOSQLiteQueue -> StronglySorted Z.lt (ids t) ->
     (forall r, In r (rows t) ->
        raw = true \/ is_none (loads (row_data r)) = false) ->
       exists w', get_n (length (rows t)) block raw w
                  = (Return (map (fun r => result_of r raw) (rows t)), w') /\
                  db w' = t).
Proof.
  intros t Hk Hnd. exists (opened k t).
  assert (forall r, head_of k t = Some r ->
            limit_1 ASC (filter (after (cursor (self (opened k t))))
                                (rows (db (opened k t)))) = Some r) as Hsel.
  { intros r Hr. simpl. rewrite Hr. apply (head_above_cursor k); assumption. }
  assert (forall r, head_of k t = Some r -> visible r raw ->
            get block None id_none raw 0%Q [] (opened k t) =
              (Return (result_of r raw),
               {| self := with_total (total (self (opened k t)) - 1)
                            (with_cursor (row_id r) (self (opened k t)));
                  db := t |})) as Hhead.
  { intros r Hr Hv. apply (get_deferred_least (opened k t)); auto. }
  split; [apply open_any_file; assumption|].
  split; [reflexivity|]. split; [reflexivity|]. split; [reflexivity|].
  split; [|split].
  - intros r Hr Hv. eexists. split; [apply Hhead; assumption|reflexivity].
  - intros x w1 Hget. destruct (head_of k t) as [r|] eqn:Eh.
    + apply get_returns_pop in Hget. simpl in Hget.
      rewrite (pop_deferred_least (opened k t) raw r Hk eq_refl
                 (Hsel r eq_refl)) in Hget.
      inversion Hget as [[Hx Hw]]. clear Hget.
      destruct (popped_of_some r raw x Hx) as [-> Hv]. simpl.
      rewrite (open_deferred k t Hk). simpl. eexists.
      apply Hhead; [reflexivity|assumption].
    + exfalso. revert Hget. apply get_deferred_nothing; auto.
      simpl. rewrite Eh. unfold head_of in Eh. apply limit_1_None in Eh.
      rewrite Eh. reflexivity.
  - intros Hfilo Hs Hvis.
    apply (replay_in_order block raw (rows t) (opened k t) []);
      [assumption | reflexivity | reflexivity | intros r [] | | exact Hvis
       | assumption].
    simpl. intros r Hr. unfold head_of.
    assert (sel_order (_SQL_SELECT k) = ASC) as ->
      by (destruct k; try reflexivity; congruence).
    destruct (limit_1 ASC (rows t)) as [m|] eqn:Em.
    + pose proof (limit_1_ASC_least _ _ Em r Hr). lia.
    + apply limit_1_None in Em. rewrite Em in Hr. contradiction.
Qed.

(** The theorem of C2 on a FIFO handle over a table of two rows. *)
Lemma C2_witness :
  let t := SQLBase.createTableIfAbsent FIFOSQLiteQueue (Some table_ab) in
  (FIFOSQLiteQueue <> MySQLQueue /\ NoDup (ids t)) /\
  exists w,
    open FIFOSQLiteQueue false (Some table_ab) = (Return tt, w) /\ db w = t /\
    cursor (self w) = match head_of FIFOSQLiteQueue t with
                      | Some r => row_id r - 1
                      | None => 0
                      end /\
    total (self w) = Z.of_nat (length (rows t)) /\
    (forall r, head_of FIFOSQLiteQueue t = Some r ->
       true = true \/ is_none (loads (Item := bytes) (row_data r)) = false ->
       exists w', get true None id_none true 0%Q [] w
                  = (Return (result_of r true), w') /\ db w' = t) /\
    (forall (x : popped bytes) w1,
       get true None id_none true 0%Q [] w = (Return x, w1) ->
       exists w2, get true None id_none true 0%Q []
                      (snd (open FIFOSQLiteQueue false (Some (db w1))))
                  = (Return x, w2)) /\
    (FIFOSQLiteQueue <> FILOSQLiteQueue -> StronglySorted Z.lt (ids t) ->
     (forall r, In r (rows t) ->
        true = true \/ is_none (loads (Item := bytes) (row_data r)) = false) ->
       exists w', get_n (length (rows t)) true true w
                  = (Return (map (fun r => result_of r true) (rows t)), w') /\
                  db w' = t).
Proof.
  assert (FIFOSQLiteQueue <> MySQLQueue) as Hk by discriminate.
  assert (NoDup (ids (SQLBase.createTableIfAbsent FIFOSQLiteQueue
                        (Some table_ab)))) as Hnd.
  { simpl. unfold ids. simpl. repeat constructor; simpl; intuition lia. }
  split; [split; assumption|].
  exact (C2_open_recomputes_and_replays (Item := bytes) FIFOSQLiteQueue
           (Some table_ab) true true Hk Hnd).
Defined.

(** ** The table only moves forward *)

Lemma succeeds_refl (t : table) : succeeds t t.
Proof. split; [lia|]. intros r Hr. left. exists r. auto. Qed.

Lemma succeeds_trans (t1 t2 t3 : table) :
  succeeds t1 t2 -> succeeds t2 t3 -> succeeds t1 t3.
Proof.
  intros [Hs12 H12] [Hs23 H23]. split; [lia|].
  intros r3 Hr3. destruct (H23 r3 Hr3) as [(r2 & Hr2 & E)|Hnew]; [|right; lia].
  destruct (H12 r2 Hr2) as [(r1 & Hr1 & E')|Hnew].
  - left. exists r1. split; [assumption|congruence].
  - right. lia.
Qed.

Lemma gone_up_to_later (c : Z) (t t' : table) :
  gone_up_to c t -> succeeds t t' -> gone_up_to c t'.
Proof.
  intros [Hc Hrows] [Hs H]. split; [lia|].
  intros r' Hr'. destruct (H r' Hr') as [(r & Hr & E)|Hnew]; [|lia].
  rewrite E. apply Hrows. assumption.
Qed.

Create HintDb forward_db.

Section Forward.
Context {Item : Type} {serializer : Serializer Item}.

Lemma forward_ret {A} (a : A) : forward (ret a).
Proof. intros w. apply succeeds_refl. Qed.

Lemma forward_raise {A} (e : exn) : forward (raise (A := A) e).
Proof. intros w. apply succeeds_refl. Qed.

Lemma forward_pending {A} : forward (pending (A := A)).
Proof. intros w. apply succeeds_refl. Qed.

Lemma forward_lift {A} (o : outcome A) : forward (lift o).
Proof. intros w. apply succeeds_refl. Qed.

Lemma forward_attr {A} (f : handle -> A) : forward (attr f).
Proof. intros w. apply succeeds_refl. Qed.

Lemma forward_with_self (f : handle -> handle) : forward (with_self f).
Proof. intros w. apply succeeds_refl. Qed.

Lemma forward_bind {A B} (c : M A) (k : A -> M B) :
  forward c -> (forall a, forward (k a)) -> forward (bind c k).
Proof.
  intros Hc Hk w. unfold bind. specialize (Hc w).
  destruct (c w) as [[a| |] w']; simpl in *; try assumption.
  eapply succeeds_trans; [exact Hc|apply Hk].
Qed.

Lemma forward_insert_into (obj : bytes) (now : Q) :
  forward (SQLBase._insert_into obj now).
Proof.
  intros w. unfold SQLBase._insert_into.
  destruct (_ && _); simpl; [apply succeeds_refl|].
  split; simpl; [lia|]. intros r Hr. apply in_app_or in Hr.
  destruct Hr as [Hr|[<-|[]]]; [left; eauto|right; simpl; lia].
Qed.

Lemma forward_select args op col rowid :
  forward (SQLBase._select args op col rowid).
Proof. intros w. apply succeeds_refl. Qed.

Lemma forward_delete (key : Z) (op : cmp) : forward (SQLBase._delete key op).
Proof.
  intros w. split; simpl; [lia|]. intros r Hr.
  apply filter_In in Hr. left. exists r. tauto.
Qed.

Lemma forward_update_row (key : Z) (obj : bytes) :
  forward (SQLBase._update key obj).
Proof.
  intros w. unfold SQLBase._update.
  destruct (_ && _); simpl; [apply succeeds_refl|].
  split; simpl; [lia|]. intros r Hr. apply in_map_iff in Hr.
  destruct Hr as (r0 & <- & Hr0). left. exists r0. split; [assumption|].
  unfold SQLBase.set_data. destruct (row_id r0 =? key); reflexivity.
Qed.

Lemma forward_count : forward SQLBase._count.
Proof. intros w. apply succeeds_refl. Qed.

End Forward.

#[local] Hint Resolve forward_ret forward_raise forward_pending forward_lift
  forward_attr forward_with_self forward_insert_into forward_select
  forward_delete forward_update_row forward_count : forward_db.

(** Take a method body apart: one [bind], [match] or [if] at a time. *)
Ltac forward_steps :=
  repeat first
    [ progress auto with forward_db
    | apply forward_bind; [|intros ?]
    | match goal with
      | |- forward (match ?x with _ => _ end) => destruct x
      | |- forward (if ?b then _ else _) => destruct b
      end ].

Section ForwardMethods.
Context {Item : Type} {serializer : Serializer Item}.

Lemma forward_loaded (row : fetched) (raw : bool) :
  forward (SQLiteQueue.loaded (Item := Item) row raw).
Proof. unfold SQLiteQueue.loaded. forward_steps. Qed.

Lemma forward_pop (rowid : option Z) (raw : bool) :
  forward (_pop (Item := Item) rowid raw).
Proof.
  pose proof forward_loaded.
  unfold _pop, SQLiteQueue._pop, MySQLQueue._pop, set_total, set_cursor.
  forward_steps.
Qed.

Lemma forward_put (item : Item) (now : Q) : forward (put item now).
Proof.
  assert (forward (UniqueQ.put item now)) as Hu.
  { intros w. unfold UniqueQ.put.
    pose proof (forward_insert_into (dumps_sorted item) now w) as Hi.
    destruct (SQLBase._insert_into (dumps_sorted item) now w) as [[i|e|] w'];
      simpl in *; try assumption.
    destruct e; assumption. }
  unfold put, SQLiteQueue.put, MySQLQueue.put, set_total, set_put_event.
  forward_steps.
Qed.

Lemma forward_get (block : bool) (timeout : option Q) (id : id_arg)
      (raw : bool) (now : Q) :
  forward (get (Item := Item) block timeout id raw now []).
Proof.
  pose proof forward_pop.
  unfold get, SQLiteQueue.get_with. simpl. unfold set_put_event.
  forward_steps.
Qed.

Lemma forward_update (item : item_arg Item) (id : option Z) :
  forward (SQLiteQueue.update item id).
Proof. unfold SQLiteQueue.update. destruct item; forward_steps. Qed.

Lemma forward_task_done : forward task_done.
Proof.
  unfold task_done, SQLiteQueue.task_done, MySQLQueue.task_done,
    SQLBase._task_done.
  forward_steps.
Qed.

Lemma forward_perform (c : call) : forward (perform c).
Proof.
  pose proof forward_put. pose proof forward_get.
  pose proof forward_update. pose proof forward_task_done.
  destruct c; simpl; forward_steps.
Qed.

Lemma history_succeeds (steps : list (handle * call)) :
  forall t, succeeds t (history steps t).
Proof.
  induction steps as [|[h c] steps IH]; intros t; simpl.
  - apply succeeds_refl.
  - eapply succeeds_trans; [|apply IH].
    apply (forward_perform c {| self := h; db := t |}).
Qed.

End ForwardMethods.

(** ** What a [get] can return *)

Section GetReturns.
Context {Item : Type} {serializer : Serializer Item}.

Lemma pop_returns_row (w w' : world) (rowid : option Z) (raw : bool)
      (x : popped Item) :
  _pop rowid raw w = (Return (Some x), w') ->
  exists r, In r (rows (db w)) /\ x = result_of r raw.
Proof.
  destruct w as [[k ac c n pe] t].
  unfold _pop, SQLiteQueue._pop, MySQLQueue._pop, bind, attr.
  destruct k, ac, rowid; simpl;
    unfold run_select; simpl;
    match goal with
    | |- context [limit_1 ?o (filter ?p ?l)] =>
        destruct (limit_1 o (filter p l)) as [r|] eqn:E
    end; simpl; try discriminate;
    destruct raw; unfold SQLiteQueue.loaded, bind, lift, ret; simpl;
    try destruct (is_none (loads (row_data r))); simpl;
    try discriminate; intros H; inversion H; subst; clear H;
    exists r; (split; [|reflexivity]);
    apply limit_1_In in E; apply filter_In in E; tauto.
Qed.

Lemma get_returns_row (w w' : world) (block : bool) (timeout : option Q)
      (id : id_arg) (raw : bool) (now : Q) (x : popped Item) :
  get block timeout id raw now [] w = (Return x, w') ->
  exists r, In r (rows (db w)) /\ x = result_of r raw.
Proof.
  intros H. apply get_returns_pop in H. revert H. apply pop_returns_row.
Qed.

End GetReturns.

(** ** C3: [task_done] *)

(** C3: [task_done] changes nothing with [auto_commit = True]; with
    [auto_commit = False] it deletes, in one [_delete], exactly the rows
    whose id is at most the cursor and keeps every row above it; and
    whatever calls any handles make on the table afterwards, no [get]
    returns a record with an id at or below that cursor.  (The cursor of a
    handle is never above the AUTOINCREMENT counter of its table.) *)
Theorem C3_task_done_deletes_up_to_cursor
        {Item : Type} {serializer : Serializer Item} (w : world) :
  cursor (self w) <= seq (db w) ->
  exists w',
    task_done w = (Return tt, w') /\
    (auto_commit (self w) = true -> w' = w) /\
    (auto_commit (self w) = false ->
       self w' = self w /\
       rows (db w') = filter (fun r => cursor (self w) <? row_id r)
                             (rows (db w)) /\
       (forall r, In r (rows (db w')) <->
                  In r (rows (db w)) /\ cursor (self w) < row_id r) /\
       forall (steps : list (handle * call)) (g : handle) (block : bool)
              (timeout : option Q) (id : id_arg) (raw : bool) (now : Q)
              (x : popped Item) (w'' : world),
         get block timeout id raw now []
             {| self := g; db := history steps (db w') |} = (Return x, w'') ->
         exists r, x = result_of r raw /\ cursor (self w) < row_id r).
Proof.
  intros Hseq. destruct w as [[k ac c n pe] t]. simpl in *.
  assert (forall l, filter (fun r => negb (row_id r <=? c)) l
                    = filter (fun r => c <? row_id r) l) as Hf.
  { intros l. apply filter_ext. intros r.
    destruct (Z.leb_spec (row_id r) c), (Z.ltb_spec c (row_id r));
      simpl; auto; lia. }
  assert (forall r, In r (filter (fun r => c <? row_id r) (rows t))
                    <-> In r (rows t) /\ c < row_id r) as Hin.
  { intros r. rewrite filter_In, Z.ltb_lt. tauto. }
  destruct ac.
  - eexists. split; [destruct k; reflexivity|].
    split; [reflexivity|discriminate].
  - eexists. split; [destruct k; reflexivity|].
    split; [discriminate|]. intros _. simpl.
    unfold where_holds. simpl.
    split; [reflexivity|]. split; [apply Hf|]. rewrite Hf.
    split; [exact Hin|].
    intros steps g block timeout id raw now x w'' Hget.
    apply get_returns_row in Hget. destruct Hget as (r & Hr & ->).
    exists r. split; [reflexivity|]. simpl in Hr.
    match type of Hr with
    | In _ (rows (history steps ?t0)) =>
        assert (gone_up_to c (history steps t0)) as [_ Hgone]
    end.
    { eapply gone_up_to_later; [|apply history_succeeds].
      split; simpl; [assumption|]. intros r0 Hr0. apply Hin. exact Hr0. }
    apply Hgone. exact Hr.
Qed.

(** ** C4: [UniqueQ.put] *)

Lemma bytes_eqb_eq (a b : bytes) : bytes_eqb a b = true <-> a = b.
Proof.
  unfold bytes_eqb. destruct (list_eq_dec byte_eq_dec a b); split;
    congruence.
Qed.

Lemma payload_present (obj : bytes) (l : list bytes) :
  existsb (bytes_eqb obj) l = true <-> In obj l.
Proof.
  rewrite existsb_exists. split.
  - intros (b & Hb & E). apply bytes_eqb_eq in E. subst. assumption.
  - intros H. exists obj. split; [assumption|]. apply bytes_eqb_eq. reflexivity.
Qed.

(** C4: on the unique variant, a [put] whose encoded payload is among the
    present rows returns [None], leaves [total] (and so the size) and the
    wake signal as they were, changes nothing in the table and raises
    nothing; a [put] of a payload that is not present inserts it as an
    ordinary [put] does: next id, [total + 1], wake signal set. *)
Theorem C4_unique_put_ignores_duplicates
        {Item : Type} {serializer : Serializer Item}
        (w : world) (item : Item) (now : Q) :
  klass (self w) = UniqueQ -> unique_data (db w) = true ->
  (In (dumps_sorted item) (map row_data (rows (db w))) ->
     put item now w = (Return None, w)) /\
  (~ In (dumps_sorted item) (map row_data (rows (db w))) ->
     put item now w =
       (Return (Some (seq (db w) + 1)),
        {| self := {| klass := UniqueQ;
                      auto_commit := auto_commit (self w);
                      cursor := cursor (self w);
                      total := total (self w) + 1;
                      put_event := true |};
           db := {| unique_data := true;
                    seq := seq (db w) + 1;
                    rows := rows (db w) ++
                              [{| row_id := seq (db w) + 1;
                                  row_data := dumps_sorted item;
                                  row_timestamp := now |}] |} |})).
Proof.
  destruct w as [[k ac c n pe] [u s l]]. simpl. intros -> ->.
  unfold put, bind, attr, UniqueQ.put, SQLBase._insert_into. simpl.
  split; intros H.
  - apply payload_present in H. rewrite H. reflexivity.
  - destruct (existsb (bytes_eqb (dumps_sorted item)) (map row_data l)) eqn:E.
    + apply payload_present in E. contradiction.
    + reflexivity.
Qed.

(** The theorem of C4 on a unique queue that already holds the payload. *)
Lemma C4_witness :
  (klass (self unique_world) = UniqueQ /\
   unique_data (db unique_world) = true) /\
  (In (dumps_sorted item_a) (map row_data (rows (db unique_world))) ->
     put item_a 3%Q unique_world = (Return None, unique_world)) /\
  (~ In (dumps_sorted item_a) (map row_data (rows (db unique_world))) ->
     put item_a 3%Q unique_world =
       (Return (Some (seq (db unique_world) + 1)),
        {| self := {| klass := UniqueQ;
                      auto_commit := auto_commit (self unique_world);
                      cursor := cursor (self unique_world);
                      total := total (self unique_world) + 1;
                      put_event := true |};
           db := {| unique_data := true;
                    seq := seq (db unique_world) + 1;
                    rows := rows (db unique_world) ++
                              [{| row_id := seq (db unique_world) + 1;
                                  row_data := dumps_sorted item_a;
                                  row_timestamp := 3%Q |}] |} |})).
Proof.
  split; [split; reflexivity|].
  apply (C4_unique_put_ignores_duplicates unique_world item_a 3%Q);
    reflexivity.
Defined.

(** ** C5: first in, first out *)

Section Fifo.
Context {Item : Type} {serializer : Serializer Item}.

Lemma enqueued_above (items : list (Item * Q)) :
  forall s r, In r (enqueued s items) -> s < row_id r.
Proof.
  induction items as [|[item now] items IH]; simpl; intros s r H;
    [contradiction|].
  destruct H as [<-|H]; simpl; [lia|]. specialize (IH _ _ H). lia.
Qed.

Lemma enqueued_sorted (items : list (Item * Q)) :
  forall s, StronglySorted Z.lt (map row_id (enqueued s items)).
Proof.
  induction items as [|[item now] items IH]; simpl; intros s; constructor.
  - apply IH.
  - apply Forall_forall. intros i Hi. apply in_map_iff in Hi.
    destruct Hi as (r & <- & Hr). apply enqueued_above in Hr. lia.
Qed.

Lemma enqueued_length (items : list (Item * Q)) :
  forall s, length (enqueued s items) = length items.
Proof. induction items as [|[item now] items IH]; simpl; auto. Qed.


Lemma delete_head (r : record) (l : list record) :
  (forall r', In r' l -> row_id r < row_id r') ->
  filter (fun x => negb (where_holds key_column op_eq (row_id r) x)) (r :: l) = l.
Proof.
  intros H. simpl. unfold where_holds at 1. simpl. rewrite Z.eqb_refl. simpl.
  apply filter_all. intros a Ha. unfold where_holds. simpl.
  specialize (H a Ha). destruct (Z.eqb_spec (row_id a) (row_id r)); [lia|reflexivity].
Qed.

Lemma enqueued_visible (items : list (Item * Q)) (raw : bool) :
  (forall item : Item, loads (dumps item) = item) ->
  (forall p, In p items -> is_none (fst p) = false) ->
  forall s r, In r (enqueued s items) -> visible r raw.
Proof.
  intros Hrt. induction items as [|[item now] items IH]; simpl;
    intros Hnn s r H; [contradiction|].
  destruct H as [<-|H].
  - right. simpl. rewrite Hrt. apply (Hnn (item, now)). auto.
  - apply (IH (fun p Hp => Hnn p (or_intror Hp)) _ _ H).
Qed.

Lemma enqueued_payloads (items : list (Item * Q)) :
  (forall item : Item, loads (dumps item) = item) ->
  forall s, map (fun r => plain (loads (row_data r))) (enqueued s items)
            = map (fun p => plain (fst p)) items.
Proof.
  intros Hrt. induction items as [|[item now] items IH]; intros s; simpl;
    [reflexivity|].
  rewrite Hrt. f_equal. apply IH.
Qed.

(** An auto-commit [_pop] on a FIFO handle takes the first row of a table
    kept in key order, and deletes it, whatever the payload is. *)
Lemma pop_auto_head (w : world) (raw : bool) (r : record) (l : list record) :
  klass (self w) = FIFOSQLiteQueue -> auto_commit (self w) = true ->
  rows (db w) = r :: l -> (forall r', In r' l -> row_id r < row_id r') ->
  _pop None raw w =
    (Return (popped_of r raw),
     {| self := with_total (total (self w) - 1) (self w);
        db := {| unique_data := unique_data (db w); seq := seq (db w);
                 rows := l |} |}).
Proof.
  intros Hk Hac Hrows Hl.
  destruct w as [[k ac c n pe] [u s l0]]. simpl in *. subst k ac l0.
  unfold _pop, SQLiteQueue._pop, bind, attr. simpl.
  unfold run_select. cbn [sel_order sel_columns]. rewrite filter_true.
  cbn [rows db self]. rewrite (limit_1_ASC_head r l Hl).
  cbn [option_map project map cell_of is_None].
  cbn [lift as_int]. unfold SQLBase._delete. cbn [db rows self].
  rewrite (delete_head r l Hl). destruct raw; reflexivity.
Qed.



End Fifo.




(** ** C6: a negative timeout *)

(** C6, as stated, fails: with [block = False] the timeout is never looked
    at, and [get(block=False, timeout=-1)] on a queue of one record returns
    that record and deletes its row. *)
Lemma C6_nonblocking_get_ignores_the_timeout :
  let w := snd (open FIFOSQLiteQueue true (Some table_a)) in
  (-1 < 0)%Q /\ rows (db w) = [row 1 item_a] /\
  exists w',
    get false (Some (-1)%Q) id_none false 0%Q [] w = (Return (plain item_a), w') /\
    rows (db w') = [].
Proof.
  simpl. split; [reflexivity|]. split; [reflexivity|].
  eexists. split; reflexivity.
Qed.

(** C6 (amended): a blocking [get] with a negative timeout raises
    [ValueError] and leaves the handle and the table untouched, whatever
    the other arguments; a non-blocking [get] does not look at the timeout
    and does what it does without one. *)
Theorem C6_blocking_get_rejects_negative_timeout
        {Item : Type} {serializer : Serializer Item}
        (w : world) (t : Q) (id : id_arg) (raw : bool) (now : Q)
        (sched : list tick) :
  (t < 0)%Q ->
  get (Item := Item) true (Some t) id raw now sched w = (Raise ValueError, w) /\
  get (Item := Item) false (Some t) id raw now sched w
    = get false None id raw now sched w.
Proof.
  intros Ht. split; [|reflexivity].
  unfold get, SQLiteQueue.get_with. simpl.
  destruct (Qle_bool 0 t) eqn:E; [|reflexivity].
  apply Qle_bool_iff in E. exfalso. revert Ht. apply Qle_not_lt. exact E.
Qed.

(** The theorem of C6 at [timeout = -1]. *)
Lemma C6_witness :
  (-1 < 0)%Q /\
  get (Item := bytes) true (Some (-1)%Q) id_none false 0%Q []
      (snd (open FIFOSQLiteQueue true (Some table_a)))
    = (Raise ValueError, snd (open FIFOSQLiteQueue true (Some table_a))) /\
  get (Item := bytes) false (Some (-1)%Q) id_none false 0%Q []
      (snd (open FIFOSQLiteQueue true (Some table_a)))
    = get false None id_none false 0%Q []
          (snd (open FIFOSQLiteQueue true (Some table_a))).
Proof.
  assert (-1 < 0)%Q as Ht by reflexivity.
  split; [exact Ht|].
  exact (C6_blocking_get_rejects_negative_timeout
           (snd (open FIFOSQLiteQueue true (Some table_a)))
           (-1)%Q id_none false 0%Q [] Ht).
Defined.

(** ** C7: [update] *)

Section Update.
Context {Item : Type} {serializer : Serializer Item}.

(** With an id to go by, [update] rewrites the payload of that row where
    it stands and returns the id. *)
Lemma update_overwrites (w : world) (item : item_arg Item) (id : option Z)
      (i : Z) :
  unique_data (db w) = false ->
  match id with
  | Some j => j = i
  | None => match item with item_dict p _ => p = Some i | _ => False end
  end ->
  SQLiteQueue.update item id w =
    (Return i,
     {| self := self w;
        db := {| unique_data := false; seq := seq (db w);
                 rows := map (SQLBase.set_data i
                                (dumps match item with
                                       | item_dict _ d => d
                                       | item_plain x => x
                                       end))
                             (rows (db w)) |} |}).
Proof.
  destruct w as [h [u s l]]. simpl. intros -> Hid.
  unfold SQLiteQueue.update, SQLBase._update, bind, ret.
  destruct id as [j|]; [subst j|]; destruct item as [x|p d]; simpl;
    try contradiction; try reflexivity.
  subst p. reflexivity.
Qed.

End Update.

(** C7 (the code departs from it): [update] must raise [ValueError] when no
    id can be determined.  With an item that is not a dict carrying
    ["pqid"] and no [id], the local [_id] is never assigned, and the test
    [_id is None] raises [UnboundLocalError] instead; the table is left as
    it was. *)
Theorem C7_update_without_id_is_unbound
        {Item : Type} {serializer : Serializer Item} (w : world) (x : Item) :
  SQLiteQueue.update (item_plain x) None w = (Raise UnboundLocalError, w) /\
  MySQLQueue.update (item_plain x) None w = (Raise UnboundLocalError, w) /\
  SQLiteQueue.update (item_dict None x) None w = (Raise ValueError, w).
Proof. repeat split. Qed.

(** ** C8: raw mode on the FILO queue *)

Section FiloRaw.
Context {Item : Type} {serializer : Serializer Item}.

(** On every non-empty FILO queue in auto-commit mode, [get(raw=True)]
    raises [IndexError], after the row has been deleted and [total]
    decremented. *)
Lemma filo_raw_get_fails (w : world) (block : bool) (now : Q)
      (sched : list tick) :
  klass (self w) = FILOSQLiteQueue -> auto_commit (self w) = true ->
  rows (db w) <> [] ->
  exists r,
    limit_1 DESC (rows (db w)) = Some r /\
    get (Item := Item) block None id_none true now sched w =
      (Raise IndexError,
       {| self := with_total (total (self w) - 1) (self w);
          db := {| unique_data := unique_data (db w); seq := seq (db w);
                   rows := filter (fun x => negb (row_id x =? row_id r))
                                  (rows (db w)) |} |}).
Proof.
  intros Hk Hac Hne. destruct (limit_1_some DESC _ Hne) as [r Hr].
  exists r. split; [assumption|].
  destruct w as [[k ac c n pe] [u s l]]. simpl in *. subst k ac.
  assert (_pop (Item := Item) None true
            {| self := {| klass := FILOSQLiteQueue; auto_commit := true;
                          cursor := c; total := n; put_event := pe |};
               db := {| unique_data := u; seq := s; rows := l |} |}
          = (Raise IndexError,
             {| self := {| klass := FILOSQLiteQueue; auto_commit := true;
                           cursor := c; total := n - 1; put_event := pe |};
                db := {| unique_data := u; seq := s;
                         rows := filter (fun x => negb (row_id x =? row_id r)) l
                      |} |})) as Hpop.
  { unfold _pop, SQLiteQueue._pop, bind, attr. simpl.
    unfold run_select. cbn [sel_order sel_columns rows]. rewrite filter_true, Hr.
    reflexivity. }
  unfold get, SQLiteQueue.get_with. cbn [SQLiteQueue.rowid_of].
  destruct block; simpl.
  - destruct sched; simpl; unfold bind; rewrite Hpop; reflexivity.
  - unfold bind; rewrite Hpop; reflexivity.
Qed.

End FiloRaw.

(** C8 (the code departs from it): [get(raw=True)] must return id, payload
    and timestamp for every ordering variant.  The [_SQL_SELECT] of
    [FILOSQLiteQueue] selects [_id, data] only, so on a FILO queue of one
    record [row[2]] is out of range: [get(raw=True)] raises [IndexError],
    and the row is already deleted when it does. *)
Theorem C8_filo_raw_get_raises_IndexError :
  let w := snd (open FILOSQLiteQueue true (Some table_a)) in
  rows (db w) = [row 1 item_a] /\
  SQLBase._select [] None None None w
    = (Return (Some [Int 1; Blob item_a]), w) /\
  exists w',
    get (Item := bytes) true None id_none true 0%Q [] w = (Raise IndexError, w') /\
    rows (db w') = [] /\
  exists w'',
    get (Item := bytes) true None id_none true 0%Q []
        (snd (open FIFOSQLiteQueue true (Some table_a)))
      = (Return (raw_dict {| pqid := Int 1; data := item_a;
                             timestamp := Float 1 |}), w'').
Proof.
  simpl. split; [reflexivity|]. split; [reflexivity|].
  eexists. split; [reflexivity|]. split; [reflexivity|].
  eexists. reflexivity.
Qed.

(** ** C9: [size], [qsize], [empty] *)

(** C9, as stated, fails: a handle opened on an empty table, into which
    another handle then puts one item, has [total = -1] after its [get];
    [size] is then [-1], not the clamp [0], and [empty] is false although
    the clamped size is 0. *)
Lemma C9_size_is_not_clamped :
  let w0 := snd (open FIFOSQLiteQueue true None) in
  let t1 := history [(other_handle, call_put item_a 1%Q)] (db w0) in
  exists x w1,
    get (Item := bytes) true None id_none false 0%Q []
        {| self := self w0; db := t1 |} = (Return x, w1) /\
    total (self w1) = -1 /\
    SQLiteQueue.size (self w1) = -1 /\
    Z.max 0 (total (self w1)) = 0 /\
    SQLiteQueue.qsize (self w1) = 0 /\
    SQLiteQueue.empty (self w1) = false.
Proof.
  simpl. do 2 eexists. repeat split.
Qed.

(** C9 (amended): for every value of [total], [qsize] returns the clamp
    [max(0, total)]; [size] returns [total] itself, which is the clamp
    exactly when [total] is not negative; and [empty] returns true exactly
    when [total] is 0. *)
Theorem C9_size_qsize_empty (h : handle) :
  SQLiteQueue.qsize h = Z.max 0 (total h) /\
  SQLiteQueue.size h = total h /\
  (SQLiteQueue.size h = Z.max 0 (total h) <-> 0 <= total h) /\
  (SQLiteQueue.empty h = true <-> total h = 0).
Proof.
  unfold SQLiteQueue.qsize, SQLiteQueue.empty, SQLiteQueue.size.
  repeat split; try lia; apply Z.eqb_eq.
Qed.

(** ** C10: an explicit id in deferred-commit mode *)

Section ExplicitId.
Context {Item : Type} {serializer : Serializer Item}.

Lemma select_by_id (l : list record) (i : Z) :
  In i (map row_id l) ->
  exists r, limit_1 ASC (filter (fun r => row_id r =? i) l) = Some r /\
            In r l /\ row_id r = i.
Proof.
  intros Hin. apply in_map_iff in Hin. destruct Hin as (r0 & E & Hr0).
  destruct (limit_1_some ASC (filter (fun r => row_id r =? i) l)) as [r Hr].
  - intros Hnil.
    assert (In r0 (filter (fun r => row_id r =? i) l)) as H.
    { apply filter_In. split; [assumption|]. apply Z.eqb_eq. assumption. }
    rewrite Hnil in H. contradiction.
  - exists r. split; [assumption|].
    apply limit_1_In in Hr. apply filter_In in Hr.
    destruct Hr as [H1 H2]. apply Z.eqb_eq in H2. auto.
Qed.

(** [task_done] in deferred-commit mode, as one equation. *)
Lemma task_done_deferred (w : world) :
  auto_commit (self w) = false ->
  task_done w =
    (Return tt,
     {| self := self w;
        db := {| unique_data := unique_data (db w); seq := seq (db w);
                 rows := filter (fun r => cursor (self w) <? row_id r)
                                (rows (db w)) |} |}).
Proof.
  destruct w as [[k ac c n pe] [u s l]]. simpl. intros ->.
  assert (filter (fun r => negb (where_holds key_column op_le c r)) l
          = filter (fun r => c <? row_id r) l) as Hf.
  { apply filter_ext. intros r. unfold where_holds. simpl.
    destruct (Z.leb_spec (row_id r) c), (Z.ltb_spec c (row_id r));
      simpl; auto; lia. }
  unfold task_done, SQLiteQueue.task_done, MySQLQueue.task_done,
    SQLBase._task_done, SQLBase._delete, bind, attr, ret.
  destruct k; simpl; rewrite Hf; reflexivity.
Qed.

End ExplicitId.

Section ExplicitIdGet.
Context {Item : Type} {serializer : Serializer Item}.

(** Loading the payload touches neither the handle nor the table, however
    it ends. *)
Lemma loaded_world (cells : fetched) (raw : bool) (w : world) :
  snd (SQLiteQueue.loaded (Item := Item) cells raw w) = w.
Proof.
  unfold SQLiteQueue.loaded, bind, lift, ret.
  destruct (item_at cells 1) as [c1| |]; simpl; try reflexivity.
  destruct (as_blob c1) as [b| |]; simpl; try reflexivity.
  destruct raw; simpl; [|reflexivity].
  destruct (item_at cells 0) as [c0| |]; simpl; try reflexivity.
  destruct (item_at cells 2) as [c2| |]; reflexivity.
Qed.

(** The deferred branch of [_pop] on whatever row its [_select] hands it:
    the cursor goes to the key of the row before the payload is loaded. *)
Lemma pop_deferred_selected (w : world) (rowid : option Z) (raw : bool)
      (i : Z) (cells : fetched) :
  klass (self w) <> MySQLQueue -> auto_commit (self w) = false ->
  SQLBase._select [cursor (self w)] (Some op_gt)
                  (Some (_KEY_COLUMN (klass (self w)))) rowid w
    = (Return (Some (Int i :: cells)), w) ->
  snd (_pop (Item := Item) rowid raw w) =
    {| self := with_total (total (self w) - 1) (with_cursor i (self w));
       db := db w |}.
Proof.
  intros Hk Hac Hsel. rewrite (pop_sqlite w rowid raw Hk).
  unfold SQLiteQueue._pop.
  unfold bind at 1. unfold attr at 1. rewrite Hac. cbv beta iota.
  unfold bind at 1. unfold attr at 1. cbv beta iota.
  unfold bind at 1. unfold attr at 1. cbv beta iota.
  unfold bind at 1. rewrite Hsel. cbv beta iota.
  cbn [is_None]. cbv beta iota.
  unfold bind, lift, as_int, set_cursor, set_total, with_self, attr.
  cbv beta iota. apply loaded_world.
Qed.

(** Without a timeout, [get] with an empty schedule leaves the world as
    its one [_pop] left it, the wake signal apart. *)
Lemma get_world_no_timeout (w : world) (block : bool) (id : id_arg)
      (raw : bool) (now : Q) :
  let w' := snd (get (Item := Item) block None id raw now [] w) in
  let wp := snd (_pop (Item := Item) (SQLiteQueue.rowid_of id) raw w) in
  cursor (self w') = cursor (self wp) /\ db w' = db wp /\
  auto_commit (self w') = auto_commit (self wp) /\
  klass (self w') = klass (self wp).
Proof.
  unfold get, SQLiteQueue.get_with.
  destruct block; simpl; unfold bind;
    destruct (_pop (SQLiteQueue.rowid_of id) raw w) as [[[x|]| |] w1];
    simpl; auto.
Qed.

End ExplicitIdGet.

(** C10: in deferred-commit mode, a [get] with an explicit id whose select
    finds the row of that id sets the cursor to that id, without touching
    the table, whatever the payload is and however the [get] ends; the
    [task_done] that follows deletes every row whose id is at most that
    id, whether or not a [get] of this handle ever returned it.  (The
    [get] is followed up to the point where it returns, raises or starts
    to wait.) *)
Theorem C10_explicit_id_get_then_task_done
        {Item : Type} {serializer : Serializer Item}
        (w : world) (id : id_arg) (i : Z) (block raw : bool) (now : Q)
        (cells : fetched) :
  klass (self w) <> MySQLQueue -> auto_commit (self w) = false ->
  SQLiteQueue.rowid_of id = Some i ->
  SQLBase._select [cursor (self w)] (Some op_gt)
                  (Some (_KEY_COLUMN (klass (self w)))) (Some i) w
    = (Return (Some (Int i :: cells)), w) ->
  let w1 := snd (get (Item := Item) block None id raw now [] w) in
  cursor (self w1) = i /\ db w1 = db w /\
  exists w2,
    task_done w1 = (Return tt, w2) /\
    rows (db w2) = filter (fun r => i <? row_id r) (rows (db w)) /\
    (forall r', In r' (rows (db w)) -> row_id r' <= i ->
                ~ In r' (rows (db w2))).
Proof.
  intros Hk Hac Hid Hsel.
  destruct (get_world_no_timeout (Item := Item) w block id raw now)
    as (Hc & Hdb & Ha & _).
  rewrite Hid, (pop_deferred_selected w (Some i) raw i cells Hk Hac Hsel)
    in Hc, Hdb, Ha.
  simpl in Hc, Hdb, Ha. intros w1. fold w1 in Hc, Hdb, Ha.
  split; [exact Hc|]. split; [exact Hdb|].
  eexists. split; [apply task_done_deferred; congruence|].
  simpl. rewrite Hc, Hdb. split; [reflexivity|].
  intros r' Hr' Hle Hin'. apply filter_In in Hin'.
  destruct Hin' as [_ Hlt]. apply Z.ltb_lt in Hlt. lia.
Qed.

(** The theorem of C10 at id 3 on a table of three rows. *)
Lemma C10_witness :
  let w := snd (open FIFOSQLiteQueue false (Some table_abc)) in
  (klass (self w) <> MySQLQueue /\ auto_commit (self w) = false /\
   SQLiteQueue.rowid_of (id_int 3) = Some 3 /\
   SQLBase._select [cursor (self w)] (Some op_gt)
                   (Some (_KEY_COLUMN (klass (self w)))) (Some 3) w
     = (Return (Some [Int 3; Blob item_c; Float 3]), w)) /\
  let w1 := snd (get (Item := bytes) true None (id_int 3) true 0%Q [] w) in
  cursor (self w1) = 3 /\ db w1 = db w /\
  exists w2,
    task_done w1 = (Return tt, w2) /\
    rows (db w2) = filter (fun r => 3 <? row_id r) (rows (db w)) /\
    (forall r', In r' (rows (db w)) -> row_id r' <= 3 ->
                ~ In r' (rows (db w2))).
Proof.
  assert (klass (self (snd (open FIFOSQLiteQueue false (Some table_abc))))
          <> MySQLQueue) as Hk by (simpl; discriminate).
  split; [split; [exact Hk|repeat split]|].
  exact (C10_explicit_id_get_then_task_done (Item := bytes)
           (snd (open FIFOSQLiteQueue false (Some table_abc)))
           (id_int 3) 3 true true 0%Q [Blob item_c; Float 3]
           Hk eq_refl eq_refl eq_refl).
Defined.

(** The same run, computed: the handle never returned the records 1 and 2,
    and [task_done] deletes them with record 3. *)
Example explicit_id_run :
  let w := snd (open FIFOSQLiteQueue false (Some table_abc)) in
  exists w1 w2,
    get (Item := bytes) true None (id_int 3) false 0%Q [] w
      = (Return (plain item_c), w1) /\
    task_done w1 = (Return tt, w2) /\ rows (db w2) = [].
Proof. simpl. do 2 eexists. repeat split. Qed.

(** ** The cursor stays below the AUTOINCREMENT counter *)

Section CursorBound.
Context {Item : Type} {serializer : Serializer Item}.

Lemma opened_cursor_bounded (k : queue_class) (t : table) :
  bounded t -> cursor (self (opened k t)) <= seq t.
Proof.
  intros [H0 Hb]. simpl. destruct (head_of k t) as [r|] eqn:E; [|assumption].
  unfold head_of in E. apply limit_1_In in E. specialize (Hb r E). lia.
Qed.

Lemma pop_cursor_bounded (w : world) (rowid : option Z) (raw : bool) :
  bounded (db w) -> cursor (self w) <= seq (db w) ->
  bounded (db (snd (_pop (Item := Item) rowid raw w))) /\
  cursor (self (snd (_pop (Item := Item) rowid raw w)))
    <= seq (db (snd (_pop (Item := Item) rowid raw w))).
Proof.
  destruct w as [[k ac c n pe] [u s l]]. simpl. intros [H0 Hb] Hc.
  assert (forall p, bounded {| unique_data := u; seq := s;
                               rows := filter p l |}) as Hfil.
  { intros p. split; simpl; [assumption|]. intros r Hr.
    apply filter_In in Hr. apply Hb. tauto. }
  assert (bounded {| unique_data := u; seq := s; rows := l |}) as Hl
    by (split; assumption).
  unfold _pop, SQLiteQueue._pop, MySQLQueue._pop, bind, attr.
  destruct k, ac, rowid; simpl; unfold run_select; simpl;
    match goal with
    | |- context [limit_1 ?o (filter ?p l)] =>
        destruct (limit_1 o (filter p l)) as [r|] eqn:E
    end; simpl; try (split; assumption);
    apply limit_1_In in E; apply filter_In in E; destruct E as [E _];
    specialize (Hb r E);
    destruct raw; simpl; split; auto.
Qed.

End CursorBound.

(** The theorem of C3 on a deferred handle that has fetched one record of
    two. *)
Lemma C3_witness :
  cursor (self world_after_one_get) <= seq (db world_after_one_get) /\
  exists w',
    task_done world_after_one_get = (Return tt, w') /\
    (auto_commit (self world_after_one_get) = true ->
     w' = world_after_one_get) /\
    (auto_commit (self world_after_one_get) = false ->
       self w' = self world_after_one_get /\
       rows (db w') = filter (fun r => cursor (self world_after_one_get)
                                         <? row_id r)
                             (rows (db world_after_one_get)) /\
       (forall r, In r (rows (db w')) <->
                  In r (rows (db world_after_one_get)) /\
                  cursor (self world_after_one_get) < row_id r) /\
       forall (steps : list (handle * call)) (g : handle) (block : bool)
              (timeout : option Q) (id : id_arg) (raw : bool) (now : Q)
              (x : popped bytes) (w'' : world),
         get block timeout id raw now []
             {| self := g; db := history steps (db w') |} = (Return x, w'') ->
         exists r, x = result_of r raw /\
                   cursor (self world_after_one_get) < row_id r).
Proof.
  assert (cursor (self world_after_one_get) <= seq (db world_after_one_get))
    as Hc by (vm_compute; discriminate).
  split; [exact Hc|].
  exact (C3_task_done_deletes_up_to_cursor (Item := bytes)
           world_after_one_get Hc).
Defined.

(** * Further properties of the module *)

(** ** Table invariants carried by every method *)

Section Keeps.
Context {Item : Type} {serializer : Serializer Item}.
Variable P : table -> Prop.
Hypothesis P_insert : forall obj now, keeps P (SQLBase._insert_into obj now).
Hypothesis P_delete : forall key op, keeps P (SQLBase._delete key op).
Hypothesis P_update : forall key obj, keeps P (SQLBase._update key obj).

Lemma keeps_same {A} (c : M A) : (forall w, db (snd (c w)) = db w) -> keeps P c.
Proof. intros H w Hw. rewrite H. assumption. Qed.

Lemma keeps_ret {A} (a : A) : keeps P (ret a).
Proof. apply keeps_same. reflexivity. Qed.

Lemma keeps_raise {A} (e : exn) : keeps P (raise (A := A) e).
Proof. apply keeps_same. reflexivity. Qed.

Lemma keeps_pending {A} : keeps P (pending (A := A)).
Proof. apply keeps_same. reflexivity. Qed.

Lemma keeps_lift {A} (o : outcome A) : keeps P (lift o).
Proof. apply keeps_same. reflexivity. Qed.

Lemma keeps_attr {A} (f : handle -> A) : keeps P (attr f).
Proof. apply keeps_same. reflexivity. Qed.

Lemma keeps_with_self (f : handle -> handle) : keeps P (with_self f).
Proof. apply keeps_same. reflexivity. Qed.

Lemma keeps_select args op col rowid :
  keeps P (SQLBase._select args op col rowid).
Proof. apply keeps_same. reflexivity. Qed.

Lemma keeps_count : keeps P SQLBase._count.
Proof. apply keeps_same. reflexivity. Qed.

Lemma keeps_bind {A B} (c : M A) (k : A -> M B) :
  keeps P c -> (forall a, keeps P (k a)) -> keeps P (bind c k).
Proof.
  intros Hc Hk w Hw. unfold bind. specialize (Hc w Hw).
  destruct (c w) as [[a| |] w']; simpl in *; try assumption.
  apply Hk. assumption.
Qed.

Ltac keeps_steps :=
  repeat first
    [ solve [auto]
    | apply keeps_ret | apply keeps_raise | apply keeps_pending
    | apply keeps_lift | apply keeps_attr | apply keeps_with_self
    | apply keeps_select | apply keeps_count
    | apply P_insert | apply P_delete | apply P_update
    | apply keeps_bind; [|intros ?]
    | match goal with
      | |- keeps P (match ?x with _ => _ end) => destruct x
      | |- keeps P (if ?b then _ else _) => destruct b
      end ].

Lemma keeps_pop (rowid : option Z) (raw : bool) :
  keeps P (_pop (Item := Item) rowid raw).
Proof.
  unfold _pop, SQLiteQueue._pop, MySQLQueue._pop, SQLiteQueue.loaded,
    set_total, set_cursor.
  keeps_steps.
Qed.

Lemma keeps_put (item : Item) (now : Q) : keeps P (put item now).
Proof.
  assert (keeps P (UniqueQ.put item now)) as Hu.
  { intros w Hw. unfold UniqueQ.put.
    pose proof (P_insert (dumps_sorted item) now w Hw) as Hi.
    destruct (SQLBase._insert_into (dumps_sorted item) now w) as [[i|e|] w'];
      simpl in *; try assumption.
    destruct e; assumption. }
  unfold put, SQLiteQueue.put, MySQLQueue.put, set_total, set_put_event.
  keeps_steps.
Qed.

Lemma keeps_get (block : bool) (timeout : option Q) (id : id_arg)
      (raw : bool) (now : Q) :
  keeps P (get (Item := Item) block timeout id raw now []).
Proof.
  pose proof keeps_pop.
  unfold get, SQLiteQueue.get_with. simpl. unfold set_put_event.
  keeps_steps.
Qed.

Lemma keeps_update (item : item_arg Item) (id : option Z) :
  keeps P (SQLiteQueue.update item id).
Proof. unfold SQLiteQueue.update. destruct item; keeps_steps. Qed.

Lemma keeps_task_done : keeps P task_done.
Proof.
  unfold task_done, SQLiteQueue.task_done, MySQLQueue.task_done,
    SQLBase._task_done.
  keeps_steps.
Qed.

Lemma keeps_perform (c : call) : keeps P (perform c).
Proof.
  pose proof keeps_put. pose proof keeps_get.
  pose proof keeps_update. pose proof keeps_task_done.
  destruct c; simpl; keeps_steps.
Qed.

Lemma keeps_history (steps : list (handle * call)) :
  forall t, P t -> P (history steps t).
Proof.
  induction steps as [|[h c] steps IH]; intros t Ht; simpl; [assumption|].
  apply IH. apply (keeps_perform c {| self := h; db := t |}). assumption.
Qed.

End Keeps.

(** ** Keys stay in order *)

Lemma sorted_snoc (l : list Z) (y : Z) :
  StronglySorted Z.lt l -> (forall x, In x l -> x < y) ->
  StronglySorted Z.lt (l ++ [y]).
Proof.
  induction l as [|a l IH]; simpl; intros Hs Hy.
  - constructor; constructor.
  - inversion Hs as [|? ? Hs' Hall]; subst. constructor.
    + apply IH; auto.
    + apply Forall_app. split; [assumption|]. constructor; [|constructor].
      apply Hy. auto.
Qed.

Lemma sorted_map_filter (p : record -> bool) (l : list record) :
  StronglySorted Z.lt (map row_id l) ->
  StronglySorted Z.lt (map row_id (filter p l)).
Proof.
  induction l as [|a l IH]; simpl; intros Hs; [constructor|].
  inversion Hs as [|? ? Hs' Hall]; subst.
  destruct (p a); simpl; [|auto]. constructor; [auto|].
  rewrite Forall_forall in *. intros x Hx. apply Hall.
  apply in_map_iff in Hx. destruct Hx as (r & <- & Hr).
  apply filter_In in Hr. apply in_map. tauto.
Qed.

Lemma sorted_NoDup (l : list Z) : StronglySorted Z.lt l -> NoDup l.
Proof.
  induction l as [|a l IH]; intros Hs; [constructor|].
  inversion Hs as [|? ? Hs' Hall]; subst. constructor; [|auto].
  intros Hin. rewrite Forall_forall in Hall. specialize (Hall a Hin). lia.
Qed.

Lemma ids_set_data (key : Z) (obj : bytes) (l : list record) :
  map row_id (map (SQLBase.set_data key obj) l) = map row_id l.
Proof.
  rewrite map_map. apply map_ext. intros r. unfold SQLBase.set_data.
  destruct (row_id r =? key); reflexivity.
Qed.

Lemma key_ordered_insert (obj : bytes) (now : Q) :
  keeps key_ordered (SQLBase._insert_into obj now).
Proof.
  intros [h [u s l]] (Hs & H0 & Hb). unfold SQLBase._insert_into. simpl in *.
  destruct (u && _); simpl; [repeat split; assumption|].
  unfold key_ordered, bounded, ids. simpl. rewrite map_app. simpl.
  split; [|split; [lia|]].
  - apply sorted_snoc; [assumption|]. intros x Hx.
    apply in_map_iff in Hx. destruct Hx as (r & <- & Hr).
    specialize (Hb r Hr). lia.
  - intros r Hr. apply in_app_or in Hr.
    destruct Hr as [Hr|[<-|[]]]; [specialize (Hb r Hr)|simpl]; lia.
Qed.

Lemma key_ordered_delete (key : Z) (op : cmp) :
  keeps key_ordered (SQLBase._delete key op).
Proof.
  intros [h [u s l]] (Hs & H0 & Hb). unfold key_ordered, bounded, ids.
  simpl in *. split; [apply sorted_map_filter; assumption|].
  split; [assumption|]. intros r Hr. apply filter_In in Hr. apply Hb. tauto.
Qed.

Lemma key_ordered_update (key : Z) (obj : bytes) :
  keeps key_ordered (SQLBase._update key obj).
Proof.
  intros [h [u s l]] (Hs & H0 & Hb). unfold SQLBase._update. simpl in *.
  destruct (_ && _); simpl; [repeat split; assumption|].
  unfold key_ordered, bounded, ids. simpl. rewrite ids_set_data.
  split; [assumption|]. split; [assumption|].
  intros r Hr. apply in_map_iff in Hr. destruct Hr as (r0 & <- & Hr0).
  specialize (Hb r0 Hr0). unfold SQLBase.set_data.
  destruct (row_id r0 =? key); simpl; lia.
Qed.

(** X1: whatever calls ([put], [get], [update], [task_done]) handles of any
    class and mode make on a table, its rows stay in ascending key order
    with distinct keys, none above the AUTOINCREMENT counter. *)
Theorem X1_keys_stay_ordered
        {Item : Type} {serializer : Serializer Item}
        (steps : list (handle * call)) (t : table) :
  key_ordered t ->
  key_ordered (history steps t) /\ NoDup (ids (history steps t)).
Proof.
  intros Ht.
  assert (key_ordered (history steps t)) as H.
  { apply (keeps_history key_ordered); auto using key_ordered_insert,
      key_ordered_delete, key_ordered_update. }
  split; [assumption|]. apply sorted_NoDup. apply H.
Qed.

(** The theorem of X1 on a new table and a run of four calls. *)
Lemma X1_witness :
  let steps := [(other_handle, call_put item_a 1%Q);
                (other_handle, call_put item_b 2%Q);
                (other_handle, call_get true None id_none false 0%Q);
                (other_handle, call_put item_c 3%Q)] in
  key_ordered (_SQL_CREATE FIFOSQLiteQueue) /\
  key_ordered (history steps (_SQL_CREATE FIFOSQLiteQueue)) /\
  NoDup (ids (history steps (_SQL_CREATE FIFOSQLiteQueue))).
Proof.
  assert (key_ordered (_SQL_CREATE FIFOSQLiteQueue)) as H.
  { repeat split; simpl; try lia; try constructor; try tauto. }
  split; [exact H|].
  exact (X1_keys_stay_ordered (Item := bytes) _ _ H).
Defined.

Lemma distinct_images_filter {A B} (l : list A) (keep : A -> bool)
      (image : A -> B) :
  NoDup (map image l) -> NoDup (map image (filter keep l)).
Proof.
  intros Hl. induction l as [|x l IH]; simpl; [constructor|].
  inversion Hl as [|? ? Hx Hrest]; subst.
  destruct (keep x); simpl; [|auto]. constructor; [|auto].
  intros Hin. apply Hx. apply in_map_iff in Hin.
  destruct Hin as (y & E & Hy). apply filter_In in Hy.
  rewrite <- E. apply in_map. tauto.
Qed.

(** ** How [get] ends *)

Section GetEnds.
Context {Item : Type} {serializer : Serializer Item}.

(** [_pop] itself never waits. *)
Lemma pop_never_waits (w : world) (rowid : option Z) (raw : bool) :
  fst (_pop (Item := Item) rowid raw w) <> Pending.
Proof.
  destruct w as [[k ac c n pe] [u s l]].
  unfold _pop, SQLiteQueue._pop, MySQLQueue._pop, bind, attr.
  destruct k, ac, rowid; simpl; unfold run_select; simpl;
    match goal with
    | |- context [limit_1 ?o (filter ?p l)] =>
        destruct (limit_1 o (filter p l)) as [r|]
    end; simpl; try discriminate;
    destruct raw; simpl; discriminate.
Qed.

Lemma pop_empty (w : world) (rowid : option Z) (raw : bool) :
  rows (db w) = [] -> _pop (Item := Item) rowid raw w = (Return None, w).
Proof.
  destruct w as [[k ac c n pe] [u s l]]. simpl. intros ->.
  unfold _pop, SQLiteQueue._pop, MySQLQueue._pop, bind, attr.
  destruct k, ac, rowid; reflexivity.
Qed.

End GetEnds.

(** X3: [get(block=False)] never waits, whatever the class, the mode and
    the other arguments; and on an empty table it raises [Empty] and
    leaves the handle and the table exactly as they were. *)
Theorem X3_nonblocking_get_never_waits
        {Item : Type} {serializer : Serializer Item}
        (w : world) (timeout : option Q) (id : id_arg) (raw : bool) (now : Q)
        (sched : list tick) :
  fst (get (Item := Item) false timeout id raw now sched w) <> Pending /\
  (rows (db w) = [] ->
   get (Item := Item) false timeout id raw now sched w = (Raise Empty, w)).
Proof.
  unfold get, SQLiteQueue.get_with. simpl. unfold bind. split.
  - pose proof (pop_never_waits w (SQLiteQueue.rowid_of id) raw) as Hp.
    destruct (_pop (SQLiteQueue.rowid_of id) raw w) as [[[x|]| |] w'];
      simpl in *; congruence.
  - intros Hrows. rewrite (pop_empty w _ raw Hrows). reflexivity.
Qed.

(** X4: a blocking [get] with a timeout [t >= 0] on an empty table raises
    [Empty] as soon as the clock it reads has reached the deadline
    [now + t]; it has cleared the wake signal and touched nothing else. *)
Theorem X4_blocking_get_times_out
        {Item : Type} {serializer : Serializer Item}
        (w : world) (t : Q) (id : id_arg) (raw : bool) (now : Q)
        (tk : tick) (sched : list tick) :
  rows (db w) = [] -> (0 <= t)%Q -> (now + t <= clock tk)%Q ->
  get (Item := Item) true (Some t) id raw now (tk :: sched) w =
    (Raise Empty,
     {| self := {| klass := klass (self w);
                   auto_commit := auto_commit (self w);
                   cursor := cursor (self w); total := total (self w);
                   put_event := false |};
        db := db w |}).
Proof.
  intros Hrows Ht Hclock.
  unfold get, SQLiteQueue.get_with. simpl.
  apply Qle_bool_iff in Ht. rewrite Ht. simpl.
  unfold bind. rewrite (pop_empty w _ raw Hrows). simpl.
  assert (Qle_bool (now + t - clock tk) 0 = true) as ->
    by (apply Qle_bool_iff; lra).
  reflexivity.
Qed.

(** The theorem of X4 with a timeout of half a second and a clock that
    reads one second later. *)
Lemma X4_witness :
  let w := snd (open FIFOSQLiteQueue true None) in
  let tk := {| clock := 1%Q; writers := fun t => t |} in
  (rows (db w) = [] /\ (0 <= 1 # 2)%Q /\ (0 + (1 # 2) <= clock tk)%Q) /\
  get (Item := bytes) true (Some (1 # 2)%Q) id_none false 0%Q [tk] w =
    (Raise Empty,
     {| self := {| klass := klass (self w);
                   auto_commit := auto_commit (self w);
                   cursor := cursor (self w); total := total (self w);
                   put_event := false |};
        db := db w |}).
Proof.
  assert ((0 <= 1 # 2)%Q) as H1 by (unfold Qle; simpl; lia).
  assert ((0 + (1 # 2) <= 1)%Q) as H2 by (unfold Qle; simpl; lia).
  split; [repeat split; assumption|].
  exact (X4_blocking_get_times_out (Item := bytes)
           (snd (open FIFOSQLiteQueue true None)) (1 # 2)%Q id_none false 0%Q
           {| clock := 1%Q; writers := fun t => t |} [] eq_refl H1 H2).
Defined.

(** ** Waking up *)

(** X6: a [get] that blocks on an empty FIFO queue returns the record that
    another handle inserts while it sleeps, when raw mode is on or the
    payload of that record is not [None]: after the wait it polls the
    table again, takes the head of what the writer left, deletes it, and
    has cleared the wake signal. *)
Theorem X6_blocked_get_takes_what_a_writer_put
        {Item : Type} {serializer : Serializer Item}
        (w : world) (raw : bool) (now : Q) (tk : tick) (sched : list tick)
        (r : record) (l : list record) :
  klass (self w) = FIFOSQLiteQueue -> auto_commit (self w) = true ->
  rows (db w) = [] ->
  rows (writers tk (db w)) = r :: l ->
  (forall r', In r' l -> row_id r < row_id r') ->
  raw = true \/ is_none (loads (row_data r)) = false ->
  get (Item := Item) true None id_none raw now (tk :: sched) w =
    (Return (result_of r raw),
     {| self := {| klass := FIFOSQLiteQueue; auto_commit := true;
                   cursor := cursor (self w); total := total (self w) - 1;
                   put_event := false |};
        db := {| unique_data := unique_data (writers tk (db w));
                 seq := seq (writers tk (db w)); rows := l |} |}).
Proof.
  intros Hk Hac Hrows Hw Hl Hv.
  set (w2 := {| self := {| klass := klass (self w);
                           auto_commit := auto_commit (self w);
                           cursor := cursor (self w); total := total (self w);
                           put_event := false |};
                db := writers tk (db w) |}).
  pose proof (pop_auto_head (Item := Item) w2 raw r l Hk Hac Hw Hl) as Hpop.
  rewrite (popped_of_visible r raw Hv) in Hpop.
  assert (get (Item := Item) true None id_none raw now (tk :: sched) w
          = SQLiteQueue.block_forever (_pop None raw) sched w2) as ->.
  { unfold get, SQLiteQueue.get_with. cbn [negb SQLiteQueue.rowid_of].
    cbn [SQLiteQueue.block_forever]. unfold bind at 1.
    rewrite (pop_empty w None raw Hrows). reflexivity. }
  destruct sched; simpl; unfold bind; rewrite Hpop; subst w2; simpl;
    rewrite Hk, Hac; reflexivity.
Qed.

(** The theorem of X6 with a writer that puts one item. *)
Lemma X6_witness :
  let w := snd (open FIFOSQLiteQueue true None) in
  (klass (self w) = FIFOSQLiteQueue /\ auto_commit (self w) = true /\
   rows (db w) = [] /\
   rows (writers writer_puts_a (db w)) = [row 1 item_a] /\
   (forall r', In r' [] -> row_id (row 1 item_a) < row_id r') /\
   (false = true \/
    is_none (loads (Item := bytes) (row_data (row 1 item_a))) = false)) /\
  get (Item := bytes) true None id_none false 0%Q [writer_puts_a] w =
    (Return (result_of (row 1 item_a) false),
     {| self := {| klass := FIFOSQLiteQueue; auto_commit := true;
                   cursor := cursor (self w); total := total (self w) - 1;
                   put_event := false |};
        db := {| unique_data := unique_data (writers writer_puts_a (db w));
                 seq := seq (writers writer_puts_a (db w)); rows := [] |} |}).
Proof.
  assert (forall r', In r' [] -> row_id (row 1 item_a) < row_id r') as Hl
    by (intros r' []).
  assert (false = true \/
          is_none (loads (Item := bytes) (row_data (row 1 item_a))) = false)
    as Hv by (right; reflexivity).
  split; [repeat split; [exact Hl|exact Hv]|].
  exact (X6_blocked_get_takes_what_a_writer_put (Item := bytes)
           (snd (open FIFOSQLiteQueue true None)) false 0%Q writer_puts_a []
           (row 1 item_a) [] eq_refl eq_refl eq_refl eq_refl Hl Hv).
Defined.

(** ** Last in, first out *)

Section Filo.
Context {Item : Type} {serializer : Serializer Item}.

(** [put_each] through [SQLiteQueue.put] or [MySQLQueue.put]: one row per
    item, appended in order; only [MySQLQueue.put] leaves [total] alone. *)
Lemma put_each_appends (items : list (Item * Q)) :
  forall w,
    klass (self w) <> UniqueQ -> unique_data (db w) = false ->
    exists l w1,
      put_each items w = (Return l, w1) /\
      klass (self w1) = klass (self w) /\
      auto_commit (self w1) = auto_commit (self w) /\
      cursor (self w1) = cursor (self w) /\
      total (self w1) = match klass (self w) with
                        | MySQLQueue => total (self w)
                        | _ => total (self w) + Z.of_nat (length items)
                        end /\
      unique_data (db w1) = false /\
      rows (db w1) = rows (db w) ++ enqueued (seq (db w)) items.
Proof.
  induction items as [|[item now] items IH]; intros w Hk Hu.
  - exists [], w. simpl. rewrite app_nil_r. repeat split; auto.
    destruct (klass (self w)); lia.
  - destruct w as [[k ac c n pe] [u s l]]. simpl in Hk, Hu. subst u.
    set (w1 := {| self := {| klass := k; auto_commit := ac; cursor := c;
                             total := match k with
                                      | MySQLQueue => n
                                      | _ => n + 1
                                      end;
                             put_event := true |};
                  db := {| unique_data := false; seq := s + 1;
                           rows := l ++ [{| row_id := s + 1;
                                            row_data := dumps item;
                                            row_timestamp := now |}] |} |}).
    destruct (IH w1 Hk eq_refl)
      as (l' & w2 & Hput & Hk2 & Hac2 & Hc2 & Ht2 & Hu2 & Hr2).
    exists (Some (s + 1) :: l'), w2.
    split; [|repeat split; auto].
    + change (put_each ((item, now) :: items))
        with (bind (put item now)
                (fun i => bind (put_each items) (fun l0 => ret (i :: l0)))).
      unfold bind at 1.
      replace (put item now _) with (Return (Some (s + 1)), w1)
        by (destruct k; try reflexivity; congruence).
      unfold bind. rewrite Hput. reflexivity.
    + rewrite Ht2. simpl. destruct k; lia.
    + rewrite Hr2. simpl. rewrite <- app_assoc. reflexivity.
Qed.

Lemma limit_1_DESC_last (l : list record) (r : record) :
  (forall r', In r' l -> row_id r' < row_id r) ->
  limit_1 DESC (l ++ [r]) = Some r.
Proof.
  induction l as [|a l IH]; simpl; intros H; [reflexivity|].
  rewrite IH by auto. simpl.
  destruct (Z.leb_spec (row_id r) (row_id a)); [|reflexivity].
  specialize (H a (or_introl eq_refl)). lia.
Qed.

Lemma delete_last (l : list record) (r : record) :
  (forall r', In r' l -> row_id r' < row_id r) ->
  filter (fun x => negb (where_holds key_column op_eq (row_id r) x)) (l ++ [r])
  = l.
Proof.
  intros H. rewrite filter_app. simpl. unfold where_holds at 2. simpl.
  rewrite Z.eqb_refl. simpl. rewrite app_nil_r.
  apply filter_all. intros a Ha. unfold where_holds. simpl.
  specialize (H a Ha). destruct (Z.eqb_spec (row_id a) (row_id r)); [lia|reflexivity].
Qed.

Lemma sorted_snoc_inv (l : list record) (r : record) :
  StronglySorted Z.lt (map row_id (l ++ [r])) ->
  StronglySorted Z.lt (map row_id l) /\
  forall r', In r' l -> row_id r' < row_id r.
Proof.
  induction l as [|a l IH]; simpl; intros Hs.
  - split; [constructor|intros r' []].
  - inversion Hs as [|? ? Hs' Hall]; subst. destruct (IH Hs') as [H1 H2].
    rewrite map_app, Forall_app in Hall. destruct Hall as [Hl Hr].
    split; [constructor; assumption|].
    intros r' [<-|Hr']; [|auto]. inversion Hr; subst. assumption.
Qed.

(** An auto-commit [_pop] without [raw] on a FILO handle takes the last
    row of a table kept in key order, and deletes it, whatever the payload
    is. *)
Lemma pop_filo_last (w : world) (r : record) (l : list record) :
  klass (self w) = FILOSQLiteQueue -> auto_commit (self w) = true ->
  rows (db w) = l ++ [r] -> (forall r', In r' l -> row_id r' < row_id r) ->
  _pop None false w =
    (Return (popped_of r false),
     {| self := with_total (total (self w) - 1) (self w);
        db := {| unique_data := unique_data (db w); seq := seq (db w);
                 rows := l |} |}).
Proof.
  intros Hk Hac Hrows Hl.
  destruct w as [[k ac c n pe] [u s l0]]. simpl in *. subst k ac l0.
  unfold _pop, SQLiteQueue._pop, bind, attr. simpl.
  unfold run_select. cbn [sel_order sel_columns]. rewrite filter_true.
  cbn [rows db self]. rewrite (limit_1_DESC_last l r Hl).
  cbn [option_map project map cell_of is_None].
  cbn [lift as_int]. unfold SQLBase._delete. cbn [db rows self].
  rewrite (delete_last l r Hl). reflexivity.
Qed.

Lemma get_filo_last (w : world) (block : bool) (r : record) (l : list record) :
  klass (self w) = FILOSQLiteQueue -> auto_commit (self w) = true ->
  rows (db w) = l ++ [r] -> (forall r', In r' l -> row_id r' < row_id r) ->
  visible r false ->
  get block None id_none false 0%Q [] w =
    (Return (plain (loads (row_data r))),
     {| self := with_total (total (self w) - 1) (self w);
        db := {| unique_data := unique_data (db w); seq := seq (db w);
                 rows := l |} |}).
Proof.
  intros Hk Hac Hrows Hl Hv. apply get_of_pop. simpl.
  rewrite (pop_filo_last w r l Hk Hac Hrows Hl).
  rewrite (popped_of_visible r false Hv). reflexivity.
Qed.

Lemma get_n_filo (block : bool) (l : list record) :
  forall w,
    klass (self w) = FILOSQLiteQueue -> auto_commit (self w) = true ->
    rows (db w) = l -> StronglySorted Z.lt (map row_id l) ->
    (forall r, In r l -> visible r false) ->
    exists w',
      get_n (length l) block false w
        = (Return (map (fun r => plain (loads (row_data r))) (rev l)), w') /\
      rows (db w') = [] /\
      total (self w') = total (self w) - Z.of_nat (length l).
Proof.
  induction l as [|r l IH] using rev_ind; intros w Hk Hac Hrows Hs Hvis.
  - exists w. simpl. repeat split; auto. lia.
  - destruct (sorted_snoc_inv l r Hs) as [Hs' Hl].
    assert (visible r false) as Hv
      by (apply Hvis; apply in_or_app; right; left; reflexivity).
    pose proof (get_filo_last w block r l Hk Hac Hrows Hl Hv) as Hget.
    set (w1 := {| self := with_total (total (self w) - 1) (self w);
                  db := {| unique_data := unique_data (db w);
                           seq := seq (db w); rows := l |} |}) in *.
    destruct (IH w1) as (w' & Hn & Hr' & Ht'); auto.
    { intros a Ha. apply Hvis. apply in_or_app. left. assumption. }
    exists w'. split; [|split; [assumption|]].
    + rewrite rev_unit, length_app. simpl length.
      replace (length l + 1)%nat with (S (length l)) by lia.
      change (get_n (S (length l)) block false w)
        with (bind (get block None id_none false 0%Q [])
                (fun x => bind (get_n (length l) block false)
                            (fun xs => ret (x :: xs))) w).
      unfold bind at 1. rewrite Hget. unfold bind. rewrite Hn. reflexivity.
    + rewrite Ht', length_app. simpl. lia.
Qed.

End Filo.

(** X7: on a FILO queue with [auto_commit = True], starting empty, [n] puts
    of items other than [None] followed by [n] gets (without [raw]) return
    the items in the reverse of the order they were put; the size is [n]
    after the puts and 0 after the last get.  (The serializer gives back
    what it was given.) *)
Theorem X7_filo_order
        {Item : Type} {serializer : Serializer Item}
        (w : world) (items : list (Item * Q)) (block : bool) :
  (forall item : Item, loads (dumps item) = item) ->
  (forall p, In p items -> is_none (fst p) = false) ->
  klass (self w) = FILOSQLiteQueue -> auto_commit (self w) = true ->
  unique_data (db w) = false -> rows (db w) = [] -> total (self w) = 0 ->
  exists l w1 w2,
    put_each items w = (Return l, w1) /\
    SQLiteQueue.size (self w1) = Z.of_nat (length items) /\
    get_n (length items) block false w1
      = (Return (map (fun p => plain (fst p)) (rev items)), w2) /\
    SQLiteQueue.size (self w2) = 0 /\
    rows (db w2) = [].
Proof.
  intros Hrt Hnn Hk Hac Hu Hrows Htot.
  destruct (put_each_appends items w) as
    (l & w1 & Hput & Hk1 & Hac1 & _ & Ht1 & _ & Hr1); [congruence|assumption|].
  rewrite Hrows in Hr1. simpl in Hr1. rewrite Hk in Hk1, Ht1.
  destruct (get_n_filo block (enqueued (seq (db w)) items) w1)
    as (w2 & Hget & Hr2 & Ht2); auto.
  { congruence. }
  { apply enqueued_sorted. }
  { apply enqueued_visible; assumption. }
  rewrite enqueued_length in Hget, Ht2.
  exists l, w1, w2. split; [assumption|].
  split; [unfold SQLiteQueue.size; lia|]. split.
  - rewrite Hget. f_equal. f_equal.
    rewrite !map_rev. f_equal. apply enqueued_payloads. assumption.
  - unfold SQLiteQueue.size. split; [lia|assumption].
Qed.

(** The theorem of X7 on a freshly created FILO queue and three items. *)
Lemma X7_witness :
  let w := snd (open FILOSQLiteQueue true None) in
  let items := [(item_a, 1%Q); (item_b, 2%Q); (item_c, 3%Q)] in
  ((forall item : bytes, loads (dumps item) = item) /\
   (forall p, In p items -> is_none (fst p) = false) /\
   klass (self w) = FILOSQLiteQueue /\ auto_commit (self w) = true /\
   unique_data (db w) = false /\ rows (db w) = [] /\ total (self w) = 0) /\
  exists l w1 w2,
    put_each items w = (Return l, w1) /\
    SQLiteQueue.size (self w1) = Z.of_nat (length items) /\
    get_n (length items) true false w1
      = (Return (map (fun p => plain (fst p)) (rev items)), w2) /\
    SQLiteQueue.size (self w2) = 0 /\
    rows (db w2) = [].
Proof.
  assert (forall item : bytes, loads (dumps item) = item) as Hrt
    by (intros item; reflexivity).
  assert (forall p : bytes * Q,
            In p [(item_a, 1%Q); (item_b, 2%Q); (item_c, 3%Q)] ->
            is_none (fst p) = false) as Hnn by (intros p _; reflexivity).
  split; [split; [exact Hrt|split; [exact Hnn|repeat split]]|].
  apply (X7_filo_order (snd (open FILOSQLiteQueue true None))
           [(item_a, 1%Q); (item_b, 2%Q); (item_c, 3%Q)] true Hrt Hnn);
    reflexivity.
Defined.

(** ** [total] counts the rows of a handle that works alone *)

Lemma length_delete_one_nat (l : list record) (r : record) :
  NoDup (map row_id l) -> In r l ->
  S (length (filter (fun x => negb (where_holds key_column op_eq
                                      (row_id r) x)) l))
  = length l.
Proof.
  induction l as [|a l IH]; simpl; intros Hnd Hin; [contradiction|].
  inversion Hnd as [|? ? Ha Hl]; subst.
  unfold where_holds at 1. simpl.
  destruct (Z.eqb_spec (row_id a) (row_id r)) as [E|E]; simpl.
  - rewrite filter_all; [reflexivity|]. intros x Hx. unfold where_holds. simpl.
    destruct (Z.eqb_spec (row_id x) (row_id r)) as [Ex|]; [|reflexivity].
    exfalso. apply Ha. rewrite E, <- Ex. apply in_map. assumption.
  - destruct Hin as [->|Hin]; [congruence|].
    rewrite IH by assumption. reflexivity.
Qed.

Lemma length_delete_one (l : list record) (r : record) :
  NoDup (map row_id l) -> In r l ->
  Z.of_nat (length (filter (fun x => negb (where_holds key_column op_eq
                                             (row_id r) x)) l))
  = Z.of_nat (length l) - 1.
Proof.
  intros Hnd Hin. rewrite <- (length_delete_one_nat l r Hnd Hin). lia.
Qed.

Section Counted.
Context {Item : Type} {serializer : Serializer Item}.

Lemma key_ordered_perform (c : call) (w : world) :
  key_ordered (db w) -> key_ordered (db (snd (perform c w))).
Proof.
  apply (keeps_perform key_ordered); auto using key_ordered_insert,
    key_ordered_delete, key_ordered_update.
Qed.

Lemma key_ordered_pop (rowid : option Z) (raw : bool) (w : world) :
  key_ordered (db w) ->
  key_ordered (db (snd (_pop (Item := Item) rowid raw w))).
Proof.
  apply (keeps_pop key_ordered); auto using key_ordered_insert,
    key_ordered_delete, key_ordered_update.
Qed.

Lemma counted_pop (w : world) (rowid : option Z) (raw : bool) :
  counted w -> counted (snd (_pop (Item := Item) rowid raw w)).
Proof.
  intros (Hk & Hac & Hord & Htot).
  pose proof (key_ordered_pop rowid raw w Hord) as Hord'.
  pose proof (sorted_NoDup _ (proj1 Hord)) as Hnd.
  destruct w as [[k ac c n pe] [u s l]]. unfold ids in Hnd. simpl in *.
  subst ac n. revert Hord'.
  unfold counted, _pop, SQLiteQueue._pop, bind, attr.
  destruct k; try congruence; destruct rowid; simpl; unfold run_select;
    simpl;
    match goal with
    | |- context [limit_1 ?o (filter ?p l)] =>
        destruct (limit_1 o (filter p l)) as [r|] eqn:E
    end;
    first
      [ solve [ simpl; intros Hord';
                split; [assumption
                       |split; [reflexivity
                               |split; [exact Hord'|reflexivity]]] ]
      | apply limit_1_In in E; apply filter_In in E; destruct E as [E _];
        destruct raw; simpl; intros Hord';
        (split; [assumption|split; [reflexivity|split; [exact Hord'|]]]);
        simpl; symmetry; apply (length_delete_one l r Hnd E) ].
Qed.

Lemma get_world_cases (w : world) (block : bool) (timeout : option Q)
      (id : id_arg) (raw : bool) (now : Q) :
  let w' := snd (get (Item := Item) block timeout id raw now [] w) in
  let wp := snd (_pop (Item := Item) (SQLiteQueue.rowid_of id) raw w) in
  w' = w \/ w' = wp \/
  w' = {| self := {| klass := klass (self wp);
                     auto_commit := auto_commit (self wp);
                     cursor := cursor (self wp); total := total (self wp);
                     put_event := false |};
          db := db wp |}.
Proof.
  unfold get, SQLiteQueue.get_with.
  destruct block; simpl.
  - destruct timeout as [t|]; [destruct (Qle_bool 0 t)|]; simpl; auto;
      unfold bind;
      destruct (_pop (SQLiteQueue.rowid_of id) raw w) as [[[x|]| |] w1];
      simpl; auto.
  - unfold bind.
    destruct (_pop (SQLiteQueue.rowid_of id) raw w) as [[[x|]| |] w1];
      simpl; auto.
Qed.

Lemma counted_perform (c : call) (w : world) :
  counted w -> counted (snd (perform c w)).
Proof.
  intros Hw. pose proof Hw as (Hk & Hac & Hord & Htot).
  pose proof (key_ordered_perform c w Hord) as Hord'.
  destruct c as [item now|block timeout id raw now|item id|].
  - destruct w as [[k ac c n pe] [u s l]]. simpl in *. subst ac n.
    revert Hord'.
    unfold counted, put, SQLiteQueue.put, UniqueQ.put, SQLBase._insert_into,
      bind, attr.
    destruct k; try congruence; simpl;
      match goal with
      | |- context [existsb ?f ?m] => destruct u, (existsb f m)
      end; simpl; intros Hord'; repeat split; try assumption;
      try apply Hord'; rewrite length_app; simpl; lia.
  - pose proof (counted_pop w (SQLiteQueue.rowid_of id) raw Hw) as Hp.
    assert (snd (perform (call_get block timeout id raw now) w)
            = snd (get (Item := Item) block timeout id raw now [] w)) as ->.
    { simpl. unfold bind.
      destruct (get block timeout id raw now [] w) as [[x| |] w1]; reflexivity. }
    destruct (get_world_cases w block timeout id raw now) as [ -> | [ -> | -> ] ];
      auto.
  - destruct w as [[k ac c n pe] [u s l]]. simpl in *. subst ac n.
    revert Hord'.
    unfold counted, SQLiteQueue.update, SQLBase._update, bind, ret.
    destruct item as [x|[j|] d], id as [i|]; simpl;
      try match goal with
          | |- context [if ?b then _ else _] => destruct b
          end; simpl; intros Hord';
      (split; [assumption|split; [reflexivity|split; [exact Hord'|]]]);
      simpl; rewrite ?length_map; reflexivity.
  - destruct w as [[k ac c n pe] [u s l]]. simpl in *. subst ac n.
    unfold counted, task_done, SQLiteQueue.task_done, bind, attr.
    destruct k; try congruence; simpl;
      (split; [assumption|split; [reflexivity|split; [assumption|reflexivity]]]).
Qed.

End Counted.

(** X9: while one auto-commit handle of an SQLite class is the only user
    of its table, [size] is the number of rows after any sequence of its
    [put], [get], [update] and [task_done] calls, whichever of them return
    and whichever raise; so [empty] is true exactly when the table has no
    row. *)
Theorem X9_size_counts_the_rows
        {Item : Type} {serializer : Serializer Item}
        (calls : list call) (w : world) :
  klass (self w) <> MySQLQueue -> auto_commit (self w) = true ->
  key_ordered (db w) ->
  total (self w) = Z.of_nat (length (rows (db w))) ->
  SQLiteQueue.size (self (session calls w))
    = Z.of_nat (length (rows (db (session calls w)))) /\
  SQLiteQueue.qsize (self (session calls w))
    = Z.of_nat (length (rows (db (session calls w)))) /\
  (SQLiteQueue.empty (self (session calls w)) = true <->
   rows (db (session calls w)) = []).
Proof.
  intros Hk Hac Hord Htot.
  assert (counted (session calls w)) as (_ & _ & _ & H).
  { assert (counted w) as Hw
      by (split; [assumption|split; [assumption|split; assumption]]).
    clear - Hw.
    revert w Hw. induction calls as [|c calls IH]; intros w Hw; simpl;
      [assumption|].
    apply IH. apply counted_perform. assumption. }
  unfold SQLiteQueue.qsize, SQLiteQueue.empty, SQLiteQueue.size.
  rewrite H. split; [reflexivity|]. split; [lia|].
  rewrite Z.eqb_eq. destruct (rows (db (session calls w))); simpl.
  - tauto.
  - split; [lia|discriminate].
Qed.

(** The theorem of X9 on a new FILO queue: three puts, a raw get that
    raises [IndexError] after deleting its row, an update, a get. *)
Lemma X9_witness :
  let w := snd (open FILOSQLiteQueue true None) in
  let calls := [call_put item_a 1%Q; call_put item_b 2%Q;
                call_put item_c 3%Q;
                call_get true None id_none true 0%Q;
                call_update (item_plain item_c) (Some 1);
                call_get false None (id_int 2) false 0%Q] in
  (klass (self w) <> MySQLQueue /\ auto_commit (self w) = true /\
   key_ordered (db w) /\
   total (self w) = Z.of_nat (length (rows (db w)))) /\
  SQLiteQueue.size (self (session calls w))
    = Z.of_nat (length (rows (db (session calls w)))) /\
  SQLiteQueue.qsize (self (session calls w))
    = Z.of_nat (length (rows (db (session calls w)))) /\
  (SQLiteQueue.empty (self (session calls w)) = true <->
   rows (db (session calls w)) = []).
Proof.
  assert (klass (self (snd (open FILOSQLiteQueue true None))) <> MySQLQueue)
    as Hk by (simpl; discriminate).
  assert (key_ordered (db (snd (open FILOSQLiteQueue true None)))) as Hord.
  { repeat split; simpl; try lia; try constructor; try tauto. }
  split; [split; [assumption|split; [reflexivity|split; [assumption|reflexivity]]]|].
  exact (X9_size_counts_the_rows (Item := bytes) _
           (snd (open FILOSQLiteQueue true None)) Hk eq_refl Hord eq_refl).
Defined.

(** ** Putting the same item twice into a unique queue *)

(** X10: on the unique variant, once an item has been put its payload is
    in the table, and a second [put] of the same item returns [None] and
    changes nothing: not the table, not [total], not the wake signal.  A
    first [put] of an item that was there already changes nothing
    either. *)
Theorem X10_unique_put_twice
        {Item : Type} {serializer : Serializer Item}
        (w : world) (item : Item) (now now' : Q) :
  klass (self w) = UniqueQ -> unique_data (db w) = true ->
  let w1 := snd (put item now w) in
  In (dumps_sorted item) (map row_data (rows (db w1))) /\
  put item now' w1 = (Return None, w1) /\
  (In (dumps_sorted item) (map row_data (rows (db w))) -> w1 = w).
Proof.
  destruct w as [[k ac c n pe] [u s l]]. simpl. intros -> ->.
  unfold put, bind, attr, UniqueQ.put, SQLBase._insert_into. simpl.
  destruct (existsb (bytes_eqb (dumps_sorted item)) (map row_data l)) eqn:E;
    simpl.
  - rewrite E. split; [apply payload_present; assumption|].
    split; reflexivity.
  - assert (In (dumps_sorted item)
              (map row_data
                 (l ++ [{| row_id := s + 1; row_data := dumps_sorted item;
                           row_timestamp := now |}]))) as Hin.
    { rewrite map_app. apply in_or_app. right. simpl. auto. }
    pose proof Hin as Hex. apply payload_present in Hex. rewrite Hex.
    split; [assumption|]. split; [reflexivity|].
    intros H. apply payload_present in H. congruence.
Qed.

(** The theorem of X10 on a new unique queue. *)
Lemma X10_witness :
  let w := snd (open UniqueQ true None) in
  (klass (self w) = UniqueQ /\ unique_data (db w) = true) /\
  let w1 := snd (put item_a 1%Q w) in
  In (dumps_sorted item_a) (map row_data (rows (db w1))) /\
  put item_a 2%Q w1 = (Return None, w1) /\
  (In (dumps_sorted item_a) (map row_data (rows (db w))) -> w1 = w).
Proof.
  split; [split; reflexivity|].
  exact (X10_unique_put_twice (snd (open UniqueQ true None)) item_a 1%Q 2%Q
           eq_refl eq_refl).
Defined.

(** ** [update], and [get] with an explicit id *)

Section ById.
Context {Item : Type} {serializer : Serializer Item}.

Lemma select_updated (l : list record) (i : Z) (obj : bytes) :
  In i (map row_id l) ->
  exists r,
    limit_1 ASC (filter (fun r => row_id r =? i)
                        (map (SQLBase.set_data i obj) l)) = Some r /\
    row_id r = i /\ row_data r = obj.
Proof.
  intros Hin. rewrite <- (ids_set_data i obj) in Hin.
  destruct (select_by_id _ _ Hin) as (r & Hsel & Hr & Hi).
  exists r. split; [assumption|]. split; [assumption|].
  apply in_map_iff in Hr. destruct Hr as (r0 & <- & _).
  unfold SQLBase.set_data in *.
  destruct (Z.eqb_spec (row_id r0) i); [reflexivity|contradiction].
Qed.

(** The auto-commit [_pop] of an SQLite class with an explicit id: it
    goes by the row of that id, in all three columns, and deletes the rows
    of that id. *)
Lemma pop_by_id (w : world) (i : Z) (raw : bool) (r : record) :
  klass (self w) <> MySQLQueue -> auto_commit (self w) = true ->
  limit_1 ASC (filter (fun r => row_id r =? i) (rows (db w))) = Some r ->
  row_id r = i ->
  _pop (Some i) raw w =
    (Return (popped_of r raw),
     {| self := with_total (total (self w) - 1) (self w);
        db := {| unique_data := unique_data (db w); seq := seq (db w);
                 rows := filter (fun x => negb (row_id x =? i))
                                (rows (db w)) |} |}).
Proof.
  destruct w as [[k ac c n pe] [u s l]]. simpl. intros Hk -> Hsel <-.
  unfold _pop, SQLiteQueue._pop, bind, attr.
  destruct k; try congruence; simpl; unfold run_select;
    cbn [sel_order sel_columns rows _SQL_SELECT_ID]; rewrite Hsel; simpl;
    destruct raw; reflexivity.
Qed.

End ById.

(** X11: with [auto_commit = True], [update] followed by [get] with the
    same id returns the new payload, whether the id was given as [id] or
    carried by the raw record.  (The row exists, the new payload is not
    [None], the table has no uniqueness constraint, the serializer gives
    back what it was given.) *)
Theorem X11_update_then_get_by_id
        {Item : Type} {serializer : Serializer Item}
        (w : world) (x : Item) (i : Z) (block : bool) (now : Q)
        (sched : list tick) :
  (forall item : Item, loads (dumps item) = item) -> is_none x = false ->
  klass (self w) <> MySQLQueue -> auto_commit (self w) = true ->
  unique_data (db w) = false -> In i (ids (db w)) ->
  exists w1,
    SQLiteQueue.update (item_plain x) (Some i) w = (Return i, w1) /\
    SQLiteQueue.update (item_dict (Some i) x) None w = (Return i, w1) /\
    self w1 = self w /\
    exists w2,
      get block None (id_int i) false now sched w1 = (Return (plain x), w2).
Proof.
  intros Hrt Hx Hk Hac Hu Hin. eexists.
  split; [apply (update_overwrites w (item_plain x) (Some i) i Hu eq_refl)|].
  split; [apply (update_overwrites w (item_dict (Some i) x) None i Hu eq_refl)|].
  split; [reflexivity|].
  destruct (select_updated (rows (db w)) i (dumps x) Hin) as (r & Hsel & Hi & Hd).
  set (w1 := {| self := self w; db := _ |}).
  eexists. apply get_of_pop. simpl.
  rewrite (pop_by_id w1 i false r Hk Hac Hsel Hi).
  unfold popped_of, result_of. rewrite Hd, Hrt, Hx. reflexivity.
Qed.

(** The theorem of X11 on the second row of a table of three. *)
Lemma X11_witness :
  let w := snd (open FIFOSQLiteQueue true (Some table_abc)) in
  ((forall item : bytes, loads (dumps item) = item) /\
   is_none item_c = false /\
   klass (self w) <> MySQLQueue /\ auto_commit (self w) = true /\
   unique_data (db w) = false /\ In 2 (ids (db w))) /\
  exists w1,
    SQLiteQueue.update (item_plain item_c) (Some 2) w = (Return 2, w1) /\
    SQLiteQueue.update (item_dict (Some 2) item_c) None w = (Return 2, w1) /\
    self w1 = self w /\
    exists w2,
      get true None (id_int 2) false 0%Q [] w1 = (Return (plain item_c), w2).
Proof.
  assert (forall item : bytes, loads (dumps item) = item) as Hrt
    by (intros item; reflexivity).
  assert (klass (self (snd (open FIFOSQLiteQueue true (Some table_abc))))
          <> MySQLQueue) as Hk by (simpl; discriminate).
  assert (In 2 (ids (db (snd (open FIFOSQLiteQueue true (Some table_abc))))))
    as Hin by (simpl; unfold ids; simpl; auto).
  split; [split; [exact Hrt|split; [reflexivity|split; [exact Hk|
          split; [reflexivity|split; [reflexivity|exact Hin]]]]]|].
  exact (X11_update_then_get_by_id
           (snd (open FIFOSQLiteQueue true (Some table_abc)))
           item_c 2 true 0%Q [] Hrt eq_refl Hk eq_refl eq_refl Hin).
Defined.

(** X13: with [auto_commit = True], a [get] with an explicit id that is in
    the table goes by the record of that id, also on the FILO queue:
    when raw mode is on or the payload is not [None], it returns that
    record (in raw mode with its id and timestamp), has deleted the rows
    of that id and no other, and has counted one record less. *)
Theorem X13_get_by_id_takes_that_row
        {Item : Type} {serializer : Serializer Item}
        (w : world) (id : id_arg) (i : Z) (block raw : bool) (now : Q)
        (sched : list tick) :
  klass (self w) <> MySQLQueue -> auto_commit (self w) = true ->
  SQLiteQueue.rowid_of id = Some i -> In i (ids (db w)) ->
  exists r,
    In r (rows (db w)) /\ row_id r = i /\
    (raw = true \/ is_none (loads (row_data r)) = false ->
     get block None id raw now sched w =
       (Return (result_of r raw),
        {| self := with_total (total (self w) - 1) (self w);
           db := {| unique_data := unique_data (db w); seq := seq (db w);
                    rows := filter (fun x => negb (row_id x =? i))
                                   (rows (db w)) |} |})).
Proof.
  intros Hk Hac Hid Hin.
  destruct (select_by_id _ _ Hin) as (r & Hsel & Hr & Hri).
  exists r. split; [assumption|]. split; [assumption|].
  intros Hv. apply get_of_pop. rewrite Hid.
  rewrite (pop_by_id w i raw r Hk Hac Hsel Hri).
  rewrite (popped_of_visible r raw Hv). reflexivity.
Qed.

(** The theorem of X13 at id 2 on a FILO queue of three records, in raw
    mode. *)
Lemma X13_witness :
  let w := snd (open FILOSQLiteQueue true (Some table_abc)) in
  (klass (self w) <> MySQLQueue /\ auto_commit (self w) = true /\
   SQLiteQueue.rowid_of (id_dict (Some 2)) = Some 2 /\ In 2 (ids (db w))) /\
  exists r,
    In r (rows (db w)) /\ row_id r = 2 /\
    (true = true \/ is_none (loads (Item := bytes) (row_data r)) = false ->
     get (Item := bytes) true None (id_dict (Some 2)) true 0%Q [] w =
       (Return (result_of r true),
        {| self := with_total (total (self w) - 1) (self w);
           db := {| unique_data := unique_data (db w); seq := seq (db w);
                    rows := filter (fun x => negb (row_id x =? 2))
                                   (rows (db w)) |} |})).
Proof.
  assert (klass (self (snd (open FILOSQLiteQueue true (Some table_abc))))
          <> MySQLQueue) as Hk by (simpl; discriminate).
  assert (In 2 (ids (db (snd (open FILOSQLiteQueue true (Some table_abc))))))
    as Hin by (simpl; unfold ids; simpl; auto).
  split; [split; [exact Hk|split; [reflexivity|split; [reflexivity|exact Hin]]]|].
  exact (X13_get_by_id_takes_that_row (Item := bytes)
           (snd (open FILOSQLiteQueue true (Some table_abc)))
           (id_dict (Some 2)) 2 true true 0%Q [] Hk eq_refl eq_refl Hin).
Defined.

(** ** Deferred-commit mode: what [get] and [task_done] leave alone *)

Section DeferredFrame.
Context {Item : Type} {serializer : Serializer Item}.

Lemma pop_deferred_frame (w : world) (rowid : option Z) (raw : bool) :
  klass (self w) <> MySQLQueue -> auto_commit (self w) = false ->
  db (snd (_pop (Item := Item) rowid raw w)) = db w /\
  klass (self (snd (_pop (Item := Item) rowid raw w))) = klass (self w) /\
  auto_commit (self (snd (_pop (Item := Item) rowid raw w))) = false /\
  (rowid = None ->
   cursor (self w) <= cursor (self (snd (_pop (Item := Item) rowid raw w)))).
Proof.
  destruct w as [[k ac c n pe] [u s l]]. simpl. intros Hk ->.
  unfold _pop, SQLiteQueue._pop, bind, attr.
  destruct k; try congruence; destruct rowid; simpl; unfold run_select;
    simpl;
    match goal with
    | |- context [limit_1 ?o (filter ?p l)] =>
        destruct (limit_1 o (filter p l)) as [r|] eqn:E
    end; simpl; try destruct raw; simpl; repeat split;
    try discriminate; try lia; intros _;
    apply limit_1_In in E; apply filter_In in E; destruct E as [_ E];
    unfold where_holds in E; simpl in E; apply Z.gtb_lt in E; lia.
Qed.

End DeferredFrame.

(** X15: in deferred-commit mode a [get] of an SQLite class never changes
    the table, whatever its arguments and however it ends; and without an
    explicit id it never moves the cursor back. *)
Theorem X15_deferred_get_leaves_the_table
        {Item : Type} {serializer : Serializer Item}
        (w : world) (block : bool) (timeout : option Q) (id : id_arg)
        (raw : bool) (now : Q) :
  klass (self w) <> MySQLQueue -> auto_commit (self w) = false ->
  db (snd (get (Item := Item) block timeout id raw now [] w)) = db w /\
  (SQLiteQueue.rowid_of id = None ->
   cursor (self w)
     <= cursor (self (snd (get (Item := Item) block timeout id raw now [] w)))).
Proof.
  intros Hk Hac.
  destruct (pop_deferred_frame (Item := Item) w (SQLiteQueue.rowid_of id) raw
              Hk Hac) as (Hdb & _ & _ & Hcur).
  destruct (get_world_cases (Item := Item) w block timeout id raw now)
    as [ -> | [ -> | -> ] ]; simpl; split; auto; lia.
Qed.

(** The theorem of X15 on a deferred handle over two rows. *)
Lemma X15_witness :
  let w := snd (open FIFOSQLiteQueue false (Some table_ab)) in
  (klass (self w) <> MySQLQueue /\ auto_commit (self w) = false) /\
  db (snd (get (Item := bytes) true None id_none true 0%Q [] w)) = db w /\
  (SQLiteQueue.rowid_of id_none = None ->
   cursor (self w)
     <= cursor (self (snd (get (Item := bytes) true None id_none true 0%Q []
                               w)))).
Proof.
  assert (klass (self (snd (open FIFOSQLiteQueue false (Some table_ab))))
          <> MySQLQueue) as Hk by (simpl; discriminate).
  split; [split; [exact Hk|reflexivity]|].
  exact (X15_deferred_get_leaves_the_table (Item := bytes)
           (snd (open FIFOSQLiteQueue false (Some table_ab)))
           true None id_none true 0%Q Hk eq_refl).
Defined.

Lemma filter_twice {A} (p : A -> bool) (l : list A) :
  filter p (filter p l) = filter p l.
Proof.
  apply filter_all. intros a Ha. apply filter_In in Ha. tauto.
Qed.

(** X16: [task_done] of an SQLite class keeps every attribute of the
    handle, the cursor too, and a second [task_done] right after the
    first leaves the table as the first left it, in either mode. *)
Theorem X16_task_done_twice
        {Item : Type} {serializer : Serializer Item} (w : world) :
  klass (self w) <> MySQLQueue ->
  self (snd (task_done w)) = self w /\
  snd (task_done (snd (task_done w))) = snd (task_done w).
Proof.
  intros Hk. destruct (auto_commit (self w)) eqn:Hac.
  - assert (task_done w = (Return tt, w)) as H.
    { destruct w as [[k ac c n pe] [u s l]]. simpl in Hac. subst ac.
      destruct k; reflexivity. }
    rewrite H. simpl. rewrite H. split; reflexivity.
  - rewrite (task_done_deferred w Hac). simpl. split; [reflexivity|].
    rewrite task_done_deferred by assumption. simpl.
    rewrite filter_twice. reflexivity.
Qed.

(** The theorem of X16 on a deferred handle that has fetched one record
    of two. *)
Lemma X16_witness :
  klass (self world_after_one_get) <> MySQLQueue /\
  self (snd (task_done world_after_one_get)) = self world_after_one_get /\
  snd (task_done (snd (task_done world_after_one_get)))
    = snd (task_done world_after_one_get).
Proof.
  assert (klass (self world_after_one_get) <> MySQLQueue) as Hk
    by (vm_compute; discriminate).
  split; [exact Hk|].
  exact (X16_task_done_twice (Item := bytes) world_after_one_get Hk).
Defined.

(** ** The FILO queue in deferred-commit mode *)

Lemma get_nowait_deferred_nothing
      {Item : Type} {serializer : Serializer Item}
      (w : world) (raw : bool) :
  klass (self w) <> MySQLQueue -> auto_commit (self w) = false ->
  (forall r, In r (rows (db w)) -> row_id r <= cursor (self w)) ->
  get (Item := Item) false None id_none raw 0%Q [] w = (Raise Empty, w).
Proof.
  intros Hk Hac Hall.
  assert (limit_1 ASC (filter (after (cursor (self w))) (rows (db w))) = None)
    as Hsel.
  { rewrite filter_nothing; [reflexivity|]. intros a Ha. unfold after.
    specialize (Hall a Ha).
    destruct (Z.gtb_spec (row_id a) (cursor (self w))); [lia|reflexivity]. }
  pose proof (pop_deferred_none (Item := Item) w raw Hac Hsel) as Hpop.
  rewrite <- (pop_sqlite w None raw Hk) in Hpop.
  unfold get, SQLiteQueue.get_with. simpl. unfold bind. rewrite Hpop.
  reflexivity.
Qed.

(** X17: a FILO handle opened in deferred-commit mode offers the record
    with the largest id (when raw mode is on or its payload is not
    [None]) and then nothing: its cursor starts just below the largest id
    and [get] looks above the cursor, so the next [get(block=False)]
    raises [Empty] while every row is still in the table and [size] says
    one less than the row count. *)
Theorem X17_filo_deferred_offers_one_record
        {Item : Type} {serializer : Serializer Item}
        (t : table) (r : record) (raw : bool) :
  NoDup (ids t) -> head_of FILOSQLiteQueue t = Some r ->
  raw = true \/ is_none (loads (row_data r)) = false ->
  (forall r', In r' (rows t) -> row_id r' <= row_id r) /\
  exists w0 w1,
    open FILOSQLiteQueue false (Some t) = (Return tt, w0) /\
    get false None id_none raw 0%Q [] w0 = (Return (result_of r raw), w1) /\
    get (Item := Item) false None id_none raw 0%Q [] w1 = (Raise Empty, w1) /\
    rows (db w1) = rows t /\
    SQLiteQueue.size (self w1) = Z.of_nat (length (rows t)) - 1.
Proof.
  intros Hnd Hhead Hv.
  assert (forall r', In r' (rows t) -> row_id r' <= row_id r) as Hmax.
  { intros r' Hr'. apply (limit_1_DESC_greatest (rows t)); assumption. }
  split; [exact Hmax|].
  exists (opened FILOSQLiteQueue t). eexists.
  split; [apply open_deferred; discriminate|].
  split.
  { apply (get_deferred_least (opened FILOSQLiteQueue t));
      [discriminate|reflexivity| |exact Hv].
    simpl. rewrite Hhead. apply (head_above_cursor FILOSQLiteQueue); assumption. }
  split; [|split; [reflexivity|simpl; lia]].
  apply get_nowait_deferred_nothing; [discriminate|reflexivity|exact Hmax].
Qed.

(** The theorem of X17 on a table of three rows: the handle offers record
    3 and then nothing. *)
Lemma X17_witness :
  (NoDup (ids table_abc) /\
   head_of FILOSQLiteQueue table_abc = Some (row 3 item_c) /\
   (true = true \/
    is_none (loads (Item := bytes) (row_data (row 3 item_c))) = false)) /\
  (forall r', In r' (rows table_abc) -> row_id r' <= row_id (row 3 item_c)) /\
  exists w0 w1,
    open FILOSQLiteQueue false (Some table_abc) = (Return tt, w0) /\
    get false None id_none true 0%Q [] w0
      = (Return (result_of (row 3 item_c) true), w1) /\
    get (Item := bytes) false None id_none true 0%Q [] w1 = (Raise Empty, w1) /\
    rows (db w1) = rows table_abc /\
    SQLiteQueue.size (self w1) = Z.of_nat (length (rows table_abc)) - 1.
Proof.
  assert (NoDup (ids table_abc)) as Hnd
    by (unfold ids; simpl; repeat constructor; simpl; intuition lia).
  assert (true = true \/
          is_none (loads (Item := bytes) (row_data (row 3 item_c))) = false)
    as Hv by (left; reflexivity).
  split; [split; [exact Hnd|split; [reflexivity|exact Hv]]|].
  exact (X17_filo_deferred_offers_one_record (Item := bytes) table_abc
           (row 3 item_c) true Hnd eq_refl Hv).
Defined.

(** ** [MySQLConn] *)

Lemma conn_closed_once_step (m : MySQLConn.method) (s : MySQLConn.conn) :
  MySQLConn.times MySQLConn.is_close s
    = (if MySQLConn.closed s then 1 else 0)%nat ->
  MySQLConn.times MySQLConn.is_close (MySQLConn.call m s)
    = (if MySQLConn.closed (MySQLConn.call m s) then 1 else 0)%nat.
Proof.
  unfold MySQLConn.times. destruct s as [cur cl log n]. simpl. intros H.
  destruct m; simpl.
  - rewrite filter_app, length_app. simpl. lia.
  - destruct cur; simpl; rewrite ?filter_app, ?length_app; simpl; lia.
  - rewrite filter_app, length_app. simpl. lia.
  - destruct cl; simpl; [assumption|].
    rewrite filter_app, length_app. simpl. lia.
Qed.

Lemma conn_closed_once_calls (ms : list MySQLConn.method) :
  forall s,
    MySQLConn.times MySQLConn.is_close s
      = (if MySQLConn.closed s then 1 else 0)%nat ->
    MySQLConn.times MySQLConn.is_close (MySQLConn.calls ms s)
      = (if MySQLConn.closed (MySQLConn.calls ms s) then 1 else 0)%nat.
Proof.
  unfold MySQLConn.calls.
  induction ms as [|m ms IH]; intros s Hs; simpl; [assumption|].
  apply IH. apply conn_closed_once_step. assumption.
Qed.

Lemma conn_closed_flag (ms : list MySQLConn.method) :
  forall s,
    MySQLConn.closed (MySQLConn.calls ms s) = true <->
    MySQLConn.closed s = true \/ In MySQLConn.m_close ms.
Proof.
  unfold MySQLConn.calls.
  induction ms as [|m ms IH]; intros s; simpl; [tauto|].
  rewrite IH. destruct s as [cur cl log n].
  destruct m; simpl; try destruct cur; simpl; intuition congruence.
Qed.

(** X18: whatever sequence of [__enter__], [__exit__], [execute] and
    [close] calls is made on a new [MySQLConn], the driver connection is
    closed at most once: exactly once if [close] was called at least once,
    never otherwise; and [closed] says which. *)
Theorem X18_connection_is_closed_once (ms : list MySQLConn.method) :
  let s := MySQLConn.calls ms MySQLConn.__init__ in
  MySQLConn.times MySQLConn.is_close s
    = (if MySQLConn.closed s then 1 else 0)%nat /\
  (MySQLConn.closed s = true <-> In MySQLConn.m_close ms).
Proof.
  simpl. split; [apply conn_closed_once_calls; reflexivity|].
  rewrite conn_closed_flag. simpl. intuition congruence.
Qed.

(** X19: [__exit__] commits and then closes the cursor that the last
    [__enter__] opened; on a wrapper that never went through [__enter__]
    there is no such cursor, and [__exit__] raises [AttributeError] after
    the commit has been asked for.  It never closes the connection. *)
Theorem X19_exit_commits_then_closes_the_cursor (s : MySQLConn.conn) :
  MySQLConn.closed (snd (MySQLConn.__exit__ s)) = MySQLConn.closed s /\
  MySQLConn.times MySQLConn.is_commit (snd (MySQLConn.__exit__ s))
    = S (MySQLConn.times MySQLConn.is_commit s) /\
  MySQLConn.times MySQLConn.is_close (snd (MySQLConn.__exit__ s))
    = MySQLConn.times MySQLConn.is_close s /\
  (MySQLConn._cursor s = None ->
   MySQLConn.__exit__ s
     = (MySQLConn.AttributeError,
        {| MySQLConn._cursor := None; MySQLConn.closed := MySQLConn.closed s;
           MySQLConn.asked := MySQLConn.asked s ++ [MySQLConn.conn_commit];
           MySQLConn.cursors := MySQLConn.cursors s |})) /\
  MySQLConn.__exit__ (snd (MySQLConn.__enter__ s))
    = (MySQLConn.Done tt,
       {| MySQLConn._cursor := Some (MySQLConn.cursors s);
          MySQLConn.closed := MySQLConn.closed s;
          MySQLConn.asked :=
            MySQLConn.asked s ++
              [MySQLConn.conn_cursor (MySQLConn.cursors s);
               MySQLConn.conn_commit;
               MySQLConn.cursor_close (MySQLConn.cursors s)];
          MySQLConn.cursors := S (MySQLConn.cursors s) |}).
Proof.
  destruct s as [cur cl log n]. unfold MySQLConn.times, MySQLConn.__exit__.
  simpl. split; [destruct cur; reflexivity|].
  split; [destruct cur; simpl; rewrite ?filter_app, ?length_app; simpl; lia|].
  split; [destruct cur; simpl; rewrite ?filter_app, ?length_app; simpl; lia|].
  split; [intros ->; reflexivity|].
  rewrite <- !app_assoc. reflexivity.
Qed.

(** ** [total] in deferred-commit mode: the records not fetched yet *)

Lemma filter_and {A} (p q : A -> bool) (l : list A) :
  filter q (filter p l) = filter (fun x => p x && q x) l.
Proof.
  induction l as [|a l IH]; simpl; [reflexivity|].
  destruct (p a); simpl; [destruct (q a)|]; rewrite IH; reflexivity.
Qed.

Lemma filter_above_least (l : list record) (c : Z) (r : record) :
  c < row_id r ->
  (forall x, In x l -> c < row_id x -> row_id r <= row_id x) ->
  filter (after (row_id r)) l =
  filter (fun x => negb (where_holds key_column op_eq (row_id r) x))
         (filter (after c) l).
Proof.
  intros Hc Hleast. rewrite filter_and. apply filter_ext_in.
  intros a Ha. specialize (Hleast a Ha).
  unfold after, where_holds. simpl.
  destruct (Z.gtb_spec (row_id a) (row_id r)), (Z.gtb_spec (row_id a) c),
           (Z.eqb_spec (row_id a) (row_id r)); simpl; try reflexivity; lia.
Qed.

Lemma unfetched_after_get (l : list record) (c : Z) (r : record) :
  NoDup (map row_id l) ->
  limit_1 ASC (filter (after c) l) = Some r ->
  Z.of_nat (length (filter (after (row_id r)) l))
  = Z.of_nat (length (filter (after c) l)) - 1.
Proof.
  intros Hnd Hsel.
  destruct (filter_after_least _ _ _ Hsel) as (Hin & Hc & Hleast).
  rewrite (filter_above_least l c r Hc Hleast).
  apply length_delete_one.
  - apply distinct_images_filter. assumption.
  - apply (limit_1_In _ _ _ Hsel).
Qed.

Lemma filter_after_set_data (c key : Z) (obj : bytes) (l : list record) :
  length (filter (after c) (map (SQLBase.set_data key obj) l))
  = length (filter (after c) l).
Proof.
  induction l as [|a l IH]; simpl; [reflexivity|].
  assert (after c (SQLBase.set_data key obj a) = after c a) as ->.
  { unfold after, SQLBase.set_data. destruct (row_id a =? key); reflexivity. }
  destruct (after c a); simpl; rewrite IH; reflexivity.
Qed.

Section Tracking.
Context {Item : Type} {serializer : Serializer Item}.

Lemma tracking_pop (w : world) (raw : bool) :
  tracking w -> tracking (snd (_pop (Item := Item) None raw w)).
Proof.
  intros (Hk & Hac & Hord & Hcur & Htot).
  pose proof (sorted_NoDup _ (proj1 Hord)) as Hnd.
  pose proof (proj2 (proj2 Hord)) as Hb.
  destruct w as [[k ac c n pe] [u s l]]. unfold ids, unfetched in *.
  simpl in *. subst ac n.
  unfold tracking, unfetched, _pop, SQLiteQueue._pop, bind, attr.
  destruct k; try congruence; simpl; unfold run_select; simpl;
    try change (where_holds (_KEY_COLUMN FIFOSQLiteQueue) op_gt c)
      with (after c);
    try change (where_holds (_KEY_COLUMN FILOSQLiteQueue) op_gt c)
      with (after c);
    try change (where_holds (_KEY_COLUMN UniqueQ) op_gt c) with (after c);
    destruct (limit_1 ASC (filter (after c) l)) as [r|] eqn:E; simpl;
    first
      [ solve [ split; [assumption
                       |split; [reflexivity
                               |split; [assumption
                                       |split; [assumption|reflexivity]]]] ]
      | pose proof (unfetched_after_get l c r Hnd E) as Hlen;
        apply limit_1_In in E; apply filter_In in E; destruct E as [E _];
        specialize (Hb r E);
        destruct raw; simpl;
        (split; [assumption
                |split; [reflexivity
                        |split; [assumption
                                |split; [assumption|]]]]);
        simpl; symmetry; exact Hlen ].
Qed.

Lemma tracking_perform (c : call) (w : world) :
  without_id c -> tracking w -> tracking (snd (perform c w)).
Proof.
  intros Hid Hw. pose proof Hw as (Hk & Hac & Hord & Hcur & Htot).
  pose proof (key_ordered_perform c w Hord) as Hord'.
  destruct c as [item now|block timeout id raw now|item id|].
  - destruct w as [[k ac c n pe] [u s l]]. unfold unfetched in *.
    simpl in *. subst ac n. revert Hord'.
    assert (forall x, row_id x = s + 1 ->
              Z.of_nat (length (filter (after c) (l ++ [x])))
              = Z.of_nat (length (filter (after c) l)) + 1) as Hnew.
    { intros x Hx. rewrite filter_app, length_app. simpl. unfold after at 2.
      rewrite Hx. destruct (Z.gtb_spec (s + 1) c); simpl; lia. }
    unfold tracking, unfetched, put, SQLiteQueue.put, UniqueQ.put,
      SQLBase._insert_into, bind, attr.
    destruct k; try congruence; simpl;
      match goal with
      | |- context [existsb ?f ?m] => destruct u, (existsb f m)
      end; simpl; intros Hord';
      (split; [assumption
              |split; [reflexivity
                      |split; [exact Hord'|split; [simpl; try lia|]]]]);
      simpl; try reflexivity; symmetry; apply Hnew; reflexivity.
  - simpl in Hid.
    pose proof (tracking_pop w raw Hw) as Hp. rewrite <- Hid in Hp.
    assert (snd (perform (call_get block timeout id raw now) w)
            = snd (get (Item := Item) block timeout id raw now [] w)) as ->.
    { simpl. unfold bind.
      destruct (get block timeout id raw now [] w) as [[x| |] w1]; reflexivity. }
    destruct (get_world_cases w block timeout id raw now)
      as [ -> | [ -> | -> ] ]; auto.
  - destruct w as [[k ac c n pe] [u s l]]. unfold unfetched in *.
    simpl in *. subst ac n. revert Hord'.
    unfold tracking, unfetched, SQLiteQueue.update, SQLBase._update, bind, ret.
    destruct item as [x|[j|] d], id as [i|]; simpl;
      try match goal with
          | |- context [if ?b then _ else _] => destruct b
          end; simpl; intros Hord';
      (split; [assumption
              |split; [reflexivity
                      |split; [exact Hord'|split; [assumption|]]]]);
      simpl; rewrite ?filter_after_set_data; reflexivity.
  - cbn [perform] in *. rewrite (task_done_deferred w Hac) in *.
    destruct w as [[k ac c n pe] [u s l]]. unfold unfetched in *.
    simpl in *. subst ac n.
    split; [assumption|]. split; [reflexivity|]. split; [exact Hord'|].
    split; [assumption|]. unfold unfetched. simpl. f_equal. f_equal.
    rewrite filter_and. apply filter_ext. intros a. unfold after.
    destruct (Z.ltb_spec c (row_id a)), (Z.gtb_spec (row_id a) c);
      simpl; try reflexivity; lia.
Qed.

End Tracking.

Lemma tracking_opened (k : queue_class) (t : table) :
  k = FIFOSQLiteQueue \/ k = UniqueQ -> key_ordered t ->
  tracking (opened k t).
Proof.
  intros Hk Hord.
  split; [simpl; destruct Hk; subst; discriminate|].
  split; [reflexivity|]. split; [exact Hord|].
  split; [apply opened_cursor_bounded; apply Hord|].
  unfold unfetched. simpl. rewrite filter_all; [reflexivity|].
  intros a Ha. unfold after. apply Z.gtb_lt. unfold head_of.
  assert (sel_order (_SQL_SELECT k) = ASC) as ->
    by (destruct Hk; subst; reflexivity).
  destruct (limit_1 ASC (rows t)) as [m|] eqn:Em.
  - pose proof (limit_1_ASC_least _ _ Em a Ha). lia.
  - apply limit_1_None in Em. rewrite Em in Ha. contradiction.
Qed.

(** X21: a handle of [SQLiteQueue] or [UniqueQ] opened in deferred-commit
    mode and working alone on its table keeps [size] equal to the number
    of rows above its cursor, the records it has not fetched yet, through
    any sequence of [put], [get], [update] and [task_done] calls in which
    no [get] names an id. *)
Theorem X21_deferred_size_counts_unfetched_rows
        {Item : Type} {serializer : Serializer Item}
        (k : queue_class) (file : option table) (calls : list call) :
  k = FIFOSQLiteQueue \/ k = UniqueQ ->
  key_ordered (SQLBase.createTableIfAbsent k file) ->
  Forall without_id calls ->
  exists w0,
    open k false file = (Return tt, w0) /\
    SQLiteQueue.size (self (session calls w0)) = unfetched (session calls w0) /\
    cursor (self (session calls w0)) <= seq (db (session calls w0)).
Proof.
  intros Hk Hord Hcalls.
  exists (opened k (SQLBase.createTableIfAbsent k file)).
  split; [apply open_any_file; destruct Hk; subst; discriminate|].
  pose proof (tracking_opened k _ Hk Hord) as Hw.
  assert (tracking (session calls
                      (opened k (SQLBase.createTableIfAbsent k file))))
    as (_ & _ & _ & Hc & Ht).
  { revert Hw. generalize (opened k (SQLBase.createTableIfAbsent k file)).
    induction Hcalls as [|c calls Hc Hcalls IH]; intros w Hw; simpl;
      [assumption|].
    apply IH. apply tracking_perform; assumption. }
  split; assumption.
Qed.

(** The theorem of X21 on a table of three rows: a get, a put, a get, a
    [task_done], an update. *)
Lemma X21_witness :
  let calls := [call_get true None id_none false 0%Q;
                call_put item_a 4%Q;
                call_get false None id_none true 0%Q;
                call_task_done;
                call_update (item_plain item_b) (Some 3)] in
  ((FIFOSQLiteQueue = FIFOSQLiteQueue \/ FIFOSQLiteQueue = UniqueQ) /\
   key_ordered (SQLBase.createTableIfAbsent FIFOSQLiteQueue (Some table_abc)) /\
   Forall without_id calls) /\
  exists w0,
    open FIFOSQLiteQueue false (Some table_abc) = (Return tt, w0) /\
    SQLiteQueue.size (self (session calls w0)) = unfetched (session calls w0) /\
    cursor (self (session calls w0)) <= seq (db (session calls w0)).
Proof.
  assert (FIFOSQLiteQueue = FIFOSQLiteQueue \/ FIFOSQLiteQueue = UniqueQ)
    as Hk by (left; reflexivity).
  assert (key_ordered (SQLBase.createTableIfAbsent FIFOSQLiteQueue
                         (Some table_abc))) as Hord.
  { split; [|split; [simpl; lia|]].
    - unfold ids. simpl. repeat constructor; lia.
    - simpl. intros r [<-|[<-|[<-|[]]]]; simpl; lia. }
  assert (Forall (without_id (Item := bytes))
            [call_get true None id_none false 0%Q;
             call_put item_a 4%Q;
             call_get false None id_none true 0%Q;
             call_task_done;
             call_update (item_plain item_b) (Some 3)]) as Hcalls
    by (repeat constructor).
  split; [split; [exact Hk|split; [exact Hord|exact Hcalls]]|].
  exact (X21_deferred_size_counts_unfetched_rows (Item := bytes)
           FIFOSQLiteQueue (Some table_abc) _ Hk Hord Hcalls).
Defined.

(** ** A payload that is [None] *)

(** X22: with [auto_commit = True] a record whose payload loads to [None]
    is lost to a [get] without [raw]: [get(block=False)] deletes the row
    and counts it, and then raises [Empty] as on an empty queue; with
    [raw] the same call returns the record. *)
Theorem X22_none_payload_is_consumed_unreturned
        {Item : Type} {serializer : Serializer Item}
        (w : world) (timeout : option Q) (now : Q) (sched : list tick)
        (r : record) (l : list record) :
  klass (self w) = FIFOSQLiteQueue -> auto_commit (self w) = true ->
  rows (db w) = r :: l -> (forall r', In r' l -> row_id r < row_id r') ->
  is_none (loads (row_data r)) = true ->
  get (Item := Item) false timeout id_none false now sched w =
    (Raise Empty,
     {| self := with_total (total (self w) - 1) (self w);
        db := {| unique_data := unique_data (db w); seq := seq (db w);
                 rows := l |} |}) /\
  get (Item := Item) false timeout id_none true now sched w =
    (Return (result_of r true),
     {| self := with_total (total (self w) - 1) (self w);
        db := {| unique_data := unique_data (db w); seq := seq (db w);
                 rows := l |} |}).
Proof.
  intros Hk Hac Hrows Hl Hn. split.
  - apply get_of_pop_none. simpl.
    rewrite (pop_auto_head w false r l Hk Hac Hrows Hl).
    rewrite (popped_of_hidden r Hn). reflexivity.
  - unfold get, SQLiteQueue.get_with. simpl. unfold bind.
    rewrite (pop_auto_head w true r l Hk Hac Hrows Hl). reflexivity.
Qed.

(** The theorem of X22 on a queue whose one record holds [None]. *)
Lemma X22_witness :
  let w := snd (open FIFOSQLiteQueue true (Some table_none)) in
  let r := {| row_id := 1; row_data := dumps_or_none None;
              row_timestamp := 1 |} in
  (klass (self w) = FIFOSQLiteQueue /\ auto_commit (self w) = true /\
   rows (db w) = [r] /\ (forall r', In r' [] -> row_id r < row_id r') /\
   is_none (loads (Item := option bytes) (row_data r)) = true) /\
  get (Item := option bytes) false None id_none false 0%Q [] w =
    (Raise Empty,
     {| self := with_total (total (self w) - 1) (self w);
        db := {| unique_data := unique_data (db w); seq := seq (db w);
                 rows := [] |} |}) /\
  get (Item := option bytes) false None id_none true 0%Q [] w =
    (Return (result_of r true),
     {| self := with_total (total (self w) - 1) (self w);
        db := {| unique_data := unique_data (db w); seq := seq (db w);
                 rows := [] |} |}).
Proof.
  assert (forall r', In r' [] ->
            row_id {| row_id := 1; row_data := dumps_or_none None;
                      row_timestamp := 1 |} < row_id r') as Hl
    by (intros r' []).
  split; [repeat split; exact Hl|].
  exact (X22_none_payload_is_consumed_unreturned (Item := option bytes)
           (snd (open FIFOSQLiteQueue true (Some table_none))) None 0%Q []
           {| row_id := 1; row_data := dumps_or_none None; row_timestamp := 1 |}
           [] eq_refl eq_refl eq_refl Hl eq_refl).
Defined.
